(** * python-pam: the conversation callback and the start/authenticate/end session

    A shallow embedding of [pam.py].  The module drives libpam and libc through
    ctypes, so the embedding has three layers:

    - the native heap seen through ctypes pointers (a finite map from addresses
      to typed blocks) together with libc's allocator;
    - [my_conv], the conversation callback, a computation in a state and
      exception monad over that heap;
    - [authenticate], the session, over an arbitrary implementation of
      [pam_start], [pam_authenticate] and [pam_end]. *)

From Stdlib Require Import ZArith Lia List Strings.String Strings.Byte.
From stdpp Require Import base option list gmap.

Local Open Scope Z_scope.

(** ** Constants and structures of [pam.py] *)

Definition PAM_PROMPT_ECHO_OFF : Z := 1.
Definition PAM_PROMPT_ECHO_ON : Z := 2.
Definition PAM_ERROR_MSG : Z := 3.
Definition PAM_TEXT_INFO : Z := 4.

(** A ctypes pointer is an address; [NULL] is 0. *)
Definition NULL : Z := 0.

(** [class PamHandle(Structure)]: one [c_void_p] field, set to 0 by
    [__init__]. *)
Record PamHandle := { handle : Z }.

Definition PamHandle_init : PamHandle := {| handle := 0 |}.

(** [class PamMessage(Structure)]: [msg_style : c_int], [msg : POINTER(c_char)]. *)
Record PamMessage := { msg_style : Z; msg : Z }.

(** [class PamResponse(Structure)]: [resp : POINTER(c_char)],
    [resp_retcode : c_int]. *)
Record PamResponse := { resp : Z; resp_retcode : Z }.

(** The record whose bytes are all zero. *)
Definition zero_PamResponse : PamResponse := {| resp := NULL; resp_retcode := 0 |}.

(** [sizeof(PamResponse)] with 8-byte pointers: 8 + 4, padded to 16.  The
    value only travels to [calloc]. *)
Definition sizeof_PamResponse : Z := 16.

(** Conversion of a Python integer to a [c_uint] argument: ctypes does not
    check for overflow, the value wraps modulo 2^32. *)
Definition c_uint (n : Z) : Z := n mod 2 ^ 32.

(** The largest [c_int]. *)
Definition INT_MAX : Z := 2 ^ 31 - 1.

(** ** Byte strings *)

(** A Python text that has a UTF-8 encoding is represented by that
    encoding, one [ascii] per byte, so that [s.encode('utf-8')] is the list
    of its bytes.  Python strings in general, for which [encode] may raise,
    are the [PyStr] of the module [Py] below. *)
Definition encode_utf8 (s : string) : list byte := list_byte_of_string s.

(** The C string that starts at the first byte of a buffer: everything before
    the first NUL. *)
Fixpoint c_str (bs : list byte) : list byte :=
  match bs with
  | [] => []
  | b :: bs' => if Byte.eqb b x00 then [] else b :: c_str bs'
  end.

(** ** The native heap *)

(** What lives at an address.  Blocks are typed by the ctypes pointer type
    through which the program reaches them. *)
Inductive Block :=
| MsgPtrArray (ps : list Z)          (* [const struct pam_message **]: an array of pointers *)
| Msg (m : PamMessage)               (* one [struct pam_message] *)
| RespPtr (p : Z)                    (* the out-parameter [struct pam_response **] *)
| RespArray (rs : list PamResponse)  (* an array of [struct pam_response] *)
| CStr (bs : list byte).             (* a NUL-terminated string, without its terminator *)

(** Calls into libc, with the value each returned. *)
Inductive LibcCall :=
| CallCalloc (nmemb size ret : Z)
| CallStrdup (s : list byte) (ret : Z).

(** The world of the callback: the heap, the addresses libc's allocator will
    hand out from now on (0 for a failed allocation; an exhausted list fails
    too), and the libc calls made so far, oldest first. *)
Record World := {
  heap : gmap Z Block;
  libc : list Z;
  trace : list LibcCall
}.

(** ** Computations: state, Python exceptions, and undefined behaviour *)

Inductive PyExn :=
| ValueError_NULL_pointer_access
| UnicodeEncodeError.

Inductive Res (A : Type) :=
| Ok (a : A)           (* normal completion *)
| Raise (e : PyExn)    (* a Python exception leaves the function *)
| Undefined.           (* an access to memory that is not what the pointer type says *)

Arguments Ok {A} a.
Arguments Raise {A} e.
Arguments Undefined {A}.

Definition M (A : Type) : Type := World -> Res A * World.

Definition ret {A} (a : A) : M A := fun w => (Ok a, w).

Definition bind {A B} (c : M A) (k : A -> M B) : M B :=
  fun w =>
    match c w with
    | (Ok a, w') => k a w'
    | (Raise e, w') => (Raise e, w')
    | (Undefined, w') => (Undefined, w')
    end.

Declare Scope conv_scope.
Delimit Scope conv_scope with conv.
Notation "x <- c ;; k" := (bind c (fun x => k))
  (at level 100, c at next level, right associativity) : conv_scope.
Notation "c ;; k" := (bind c (fun _ => k))
  (at level 100, right associativity) : conv_scope.
Local Open Scope conv_scope.

(** [for x in l: body(x)] *)
Fixpoint for_each {A} (l : list A) (body : A -> M unit) : M unit :=
  match l with
  | [] => ret tt
  | x :: l' => body x ;; for_each l' body
  end.

(** Python's [range(n)]; empty for [n <= 0]. *)
Definition range (n : Z) : list nat := seq 0 (Z.to_nat n).

(** ** libc *)

Definition put_block (a : Z) (b : Block) (w : World) : World :=
  {| heap := <[a := b]> (heap w); libc := libc w; trace := trace w |}.

(** One allocator request: the next scripted address is consumed; a nonzero
    one receives the block. *)
Definition allocate (b : Block) (call : Z -> LibcCall) : M Z :=
  fun w =>
    match libc w with
    | [] =>
        (Ok NULL, {| heap := heap w; libc := []; trace := trace w ++ [call NULL] |})
    | a :: rest =>
        if decide (a = NULL) then
          (Ok NULL, {| heap := heap w; libc := rest; trace := trace w ++ [call NULL] |})
        else
          (Ok a, {| heap := <[a := b]> (heap w); libc := rest;
                    trace := trace w ++ [call a] |})
    end.

(** [CALLOC = LIBC.calloc], [argtypes = [c_uint, c_uint]], [restype = c_void_p].
    Its one use asks for [sizeof(PamResponse)]-sized elements and reads the
    result through [POINTER(PamResponse)]: zeroed bytes are then [nmemb]
    records with a NULL [resp] and a 0 [resp_retcode]. *)
Definition CALLOC (nmemb size : Z) : M Z :=
  allocate (RespArray (replicate (Z.to_nat (c_uint nmemb)) zero_PamResponse))
           (CallCalloc (c_uint nmemb) (c_uint size)).

(** [STRDUP = LIBC.strdup], [restype = POINTER(c_char)]: a copy of the C
    string held by the argument. *)
Definition STRDUP (s : list byte) : M Z :=
  allocate (CStr (c_str s)) (CallStrdup s).

(** ** ctypes pointer operations used by the callback *)

(** [p[0] = v] on a [POINTER(POINTER(PamResponse))]. *)
Definition setitem0 (p v : Z) : M unit :=
  fun w =>
    if decide (p = NULL) then (Raise ValueError_NULL_pointer_access, w)
    else match heap w !! p with
         | Some (RespPtr _) => (Ok tt, put_block p (RespPtr v) w)
         | _ => (Undefined, w)
         end.

(** [messages[i].contents]: two dereferences. *)
Definition message_at (messages : Z) (i : nat) : M PamMessage :=
  fun w =>
    if decide (messages = NULL) then (Raise ValueError_NULL_pointer_access, w)
    else match heap w !! messages with
         | Some (MsgPtrArray ps) =>
             match ps !! i with
             | Some q =>
                 if decide (q = NULL) then (Raise ValueError_NULL_pointer_access, w)
                 else match heap w !! q with
                      | Some (Msg m) => (Ok m, w)
                      | _ => (Undefined, w)
                      end
             | None => (Undefined, w)
             end
         | _ => (Undefined, w)
         end.

(** [p_response.contents[i].<field> = ...]: [update] rewrites the record.
    [p_response.contents] is the pointer stored in the out-parameter; indexing
    it raises when that pointer is NULL. *)
Definition update_response (p_response : Z) (i : nat)
    (update : PamResponse -> PamResponse) : M unit :=
  fun w =>
    if decide (p_response = NULL) then (Raise ValueError_NULL_pointer_access, w)
    else match heap w !! p_response with
         | Some (RespPtr a) =>
             if decide (a = NULL) then (Raise ValueError_NULL_pointer_access, w)
             else match heap w !! a with
                  | Some (RespArray rs) =>
                      match rs !! i with
                      | Some r => (Ok tt, put_block a (RespArray (<[i := update r]> rs)) w)
                      | None => (Undefined, w)
                      end
                  | _ => (Undefined, w)
                  end
         | _ => (Undefined, w)
         end.

Definition set_resp (v : Z) (r : PamResponse) : PamResponse :=
  {| resp := v; resp_retcode := resp_retcode r |}.

Definition set_resp_retcode (v : Z) (r : PamResponse) : PamResponse :=
  {| resp := resp r; resp_retcode := v |}.

(** ** The conversation callback *)

(** The body of the loop of [my_conv] for index [i]. *)
Definition my_conv_step (password : string) (messages p_response : Z) (i : nat) : M unit :=
  m <- message_at messages i ;;
  if decide (msg_style m = PAM_PROMPT_ECHO_OFF) then
    pw_copy <- STRDUP (encode_utf8 password) ;;
    update_response p_response i (set_resp pw_copy) ;;
    update_response p_response i (set_resp_retcode 0)
  else ret tt.

(** [my_conv(n_messages, messages, p_response, app_data)], closed over
    [password]. *)
Definition my_conv (password : string)
    (n_messages messages p_response app_data : Z) : M Z :=
  addr <- CALLOC n_messages sizeof_PamResponse ;;
  setitem0 p_response addr ;;
  for_each (range n_messages) (my_conv_step password messages p_response) ;;
  ret 0.

(** ** The session *)

(** [CONV_FUNC = CFUNCTYPE(c_int, c_int, POINTER(POINTER(PamMessage)),
    POINTER(POINTER(PamResponse)), c_void_p)]. *)
Definition CONV_FUNC : Type := Z -> Z -> Z -> Z -> M Z.

(** [class PamConv(Structure)]. *)
Record PamConv := { conv : CONV_FUNC; appdata_ptr : Z }.

(** Calls into libpam, with their arguments and what each returned.
    [CallStart] records the [appdata_ptr] of the descriptor it was given and
    the handle as [pam_start] left it. *)
Inductive PamCall :=
| CallStart (service user : list byte) (appdata status : Z) (h : PamHandle)
| CallAuthenticate (h : PamHandle) (flags status : Z)
| CallEnd (h : PamHandle) (pam_status status : Z).

Definition is_start (c : PamCall) : bool :=
  match c with CallStart _ _ _ _ _ => true | _ => false end.
Definition is_authenticate (c : PamCall) : bool :=
  match c with CallAuthenticate _ _ _ => true | _ => false end.
Definition is_end (c : PamCall) : bool :=
  match c with CallEnd _ _ _ => true | _ => false end.

Section Session.

(** The state of the native authentication library.  It is opaque to the
    program; [pam_start] may keep the conversation descriptor in it so that
    [pam_authenticate] can call back. *)
Variable Native : Type.

(** [PAM_START(service, user, pointer(conv), pointer(handle))]: returns the
    status and the handle as written through the pointer. *)
Variable PAM_START :
  list byte -> list byte -> PamConv -> PamHandle -> Native -> (Z * PamHandle) * Native.

(** [PAM_AUTHENTICATE(handle, flags)] *)
Variable PAM_AUTHENTICATE : PamHandle -> Z -> Native -> Z * Native.

(** [PAM_END(handle, pam_status)] *)
Variable PAM_END : PamHandle -> Z -> Native -> Z * Native.

(** The session threads the native state and the log of libpam calls,
    oldest first; the library sees only its own state. *)
Definition Session (A : Type) : Type := Native * list PamCall -> A * (Native * list PamCall).

Definition call_PAM_START (service user : list byte) (c : PamConv) (h : PamHandle)
    : Session (Z * PamHandle) :=
  fun '(s, log) =>
    let '((status, h'), s') := PAM_START service user c h s in
    ((status, h'), (s', log ++ [CallStart service user (appdata_ptr c) status h'])).

Definition call_PAM_AUTHENTICATE (h : PamHandle) (flags : Z) : Session Z :=
  fun '(s, log) =>
    let '(status, s') := PAM_AUTHENTICATE h flags s in
    (status, (s', log ++ [CallAuthenticate h flags status])).

Definition call_PAM_END (h : PamHandle) (pam_status : Z) : Session Z :=
  fun '(s, log) =>
    let '(status, s') := PAM_END h pam_status s in
    (status, (s', log ++ [CallEnd h pam_status status])).

(** [authenticate(username, password, service='login')] *)
Definition authenticate (username password service : string) : Session bool :=
  fun st =>
    let handle := PamHandle_init in
    let conv := {| conv := my_conv password; appdata_ptr := 0 |} in
    let '((retval, handle), st) :=
      call_PAM_START (encode_utf8 service) (encode_utf8 username) conv handle st in
    if decide (retval ≠ 0) then
      let '(_, st) := call_PAM_END handle retval st in
      (false, st)
    else
      let '(retval, st) := call_PAM_AUTHENTICATE handle 0 st in
      let '(e, st) := call_PAM_END handle retval st in
      (bool_decide (retval = 0) && bool_decide (e = 0), st).

End Session.

Arguments authenticate {Native} PAM_START PAM_AUTHENTICATE PAM_END username password service.

(** The descriptor [authenticate] builds, [PamConv(my_conv, 0)]: the callback
    closed over the password, and a zero application-data pointer. *)
Definition descriptor (password : string) : PamConv :=
  {| conv := my_conv password; appdata_ptr := 0 |}.

(** ** Reading the arrays back *)

(** The message at address [q], when [q] points to one. *)
Definition read_message (h : gmap Z Block) (q : Z) : option PamMessage :=
  if decide (q = NULL) then None
  else match h !! q with
       | Some (Msg m) => Some m
       | _ => None
       end.

(** The message array at [messages], element by element. *)
Definition read_messages (h : gmap Z Block) (messages : Z) : option (list PamMessage) :=
  if decide (messages = NULL) then None
  else match h !! messages with
       | Some (MsgPtrArray ps) => mapM (read_message h) ps
       | _ => None
       end.

(** The response array the out-parameter [p_response] points to. *)
Definition read_responses (h : gmap Z Block) (p_response : Z) : option (list PamResponse) :=
  match h !! p_response with
  | Some (RespPtr a) =>
      if decide (a = NULL) then None
      else match h !! a with
           | Some (RespArray rs) => Some rs
           | _ => None
           end
  | _ => None
  end.

(** ** The caller's side of one callback invocation *)

(** libc never hands out an address that is in use: the addresses it will
    return are pairwise different and not on the heap. *)
Definition allocator_fresh (w : World) : Prop :=
  NoDup (filter (λ a, a ≠ NULL) (libc w)) ∧
  Forall (λ a, a ≠ NULL → heap w !! a = None) (libc w).

(** What libpam provides when it calls the conversation function:
    [n_messages] is the length of the message array at [messages], it is a
    nonnegative [c_int], and [p_response] points to a cell for the result. *)
Record callback_entry (n_messages messages p_response : Z)
    (ms : list PamMessage) (w : World) : Prop := {
  entry_count : n_messages = Z.of_nat (length ms);
  entry_int : n_messages <= INT_MAX;
  entry_messages : read_messages (heap w) messages = Some ms;
  entry_out : p_response ≠ NULL ∧ ∃ old, heap w !! p_response = Some (RespPtr old);
  entry_fresh : allocator_fresh w
}.

(** The address the next allocator request returns. *)
Definition next_address (l : list Z) : Z := hd NULL l.

Definition is_prompt (m : PamMessage) : bool :=
  bool_decide (msg_style m = PAM_PROMPT_ECHO_OFF).

Definition is_strdup (c : LibcCall) : bool :=
  match c with CallStrdup _ _ => true | _ => false end.
Definition is_calloc (c : LibcCall) : bool :=
  match c with CallCalloc _ _ _ => true | _ => false end.

(** A libc call that returned NULL. *)
Definition returned_null (c : LibcCall) : bool :=
  match c with
  | CallCalloc _ _ r => bool_decide (r = NULL)
  | CallStrdup _ r => bool_decide (r = NULL)
  end.

(** The slot of an answered prompt. *)
Definition answer (v : Z) : PamResponse := {| resp := v; resp_retcode := 0 |}.

(** Reference for the loop of [my_conv]: the response slots for messages [ms]
    when the allocator is about to return the addresses [l]. *)
Fixpoint answers (ms : list PamMessage) (l : list Z) : list PamResponse :=
  match ms with
  | [] => []
  | m :: ms' =>
      if is_prompt m then answer (next_address l) :: answers ms' (tail l)
      else zero_PamResponse :: answers ms' l
  end.

(** Reference for the loop of [my_conv]: its calls to [strdup]. *)
Fixpoint strdups (s : list byte) (ms : list PamMessage) (l : list Z) : list LibcCall :=
  match ms with
  | [] => []
  | m :: ms' =>
      if is_prompt m then CallStrdup s (next_address l) :: strdups s ms' (tail l)
      else strdups s ms' l
  end.

(** ** A small libpam, to run the session against *)

#[local] Instance byte_eq_dec : EqDecision byte := Byte.byte_eq_dec.

Module Demo.

Definition PAM_SUCCESS : Z := 0.
Definition PAM_SYSTEM_ERR : Z := 4.
Definition PAM_AUTH_ERR : Z := 7.
Definition PAM_CONV_ERR : Z := 19.

(** One password prompt at 110, its array at 100, its text at 120, the
    out-parameter at 200. *)
Definition prompt_heap : gmap Z Block :=
  <[100 := MsgPtrArray [110]]>
  (<[110 := Msg {| msg_style := PAM_PROMPT_ECHO_OFF; msg := 120 |}]>
  (<[120 := CStr (encode_utf8 "Password: ")]>
  (<[200 := RespPtr NULL]> ∅))).

Record Native := {
  registered : option PamConv;   (* the descriptor given to [pam_start] *)
  memory : World;                (* the process heap and libc *)
  secret : list byte;            (* the password of the account *)
  start_status : Z;              (* what [pam_start] answers *)
  end_status : Z                 (* what [pam_end] answers *)
}.

Definition pam_start (service user : list byte) (c : PamConv) (h : PamHandle)
    (s : Native) : (Z * PamHandle) * Native :=
  ((start_status s, {| handle := 4096 |}),
   {| registered := Some c; memory := memory s; secret := secret s;
      start_status := start_status s; end_status := end_status s |}).

(** Asks for the password once and compares the answer. *)
Definition pam_authenticate (h : PamHandle) (flags : Z) (s : Native) : Z * Native :=
  match registered s with
  | None => (PAM_SYSTEM_ERR, s)
  | Some c =>
      let '(r, w) := conv c 1 100 200 (appdata_ptr c) (memory s) in
      let s' := {| registered := registered s; memory := w; secret := secret s;
                   start_status := start_status s; end_status := end_status s |} in
      match r, read_responses (heap w) 200 with
      | Ok 0, Some [r0] =>
          match heap w !! resp r0 with
          | Some (CStr bs) =>
              if decide (bs = secret s) then (PAM_SUCCESS, s') else (PAM_AUTH_ERR, s')
          | _ => (PAM_AUTH_ERR, s')
          end
      | _, _ => (PAM_CONV_ERR, s')
      end
  end.

Definition pam_end (h : PamHandle) (pam_status : Z) (s : Native) : Z * Native :=
  (end_status s, s).

(** A machine whose account password is ["hunter2"]. *)
Definition machine (start_st end_st : Z) (addresses : list Z) : Native :=
  {| registered := None;
     memory := {| heap := prompt_heap; libc := addresses; trace := [] |};
     secret := encode_utf8 "hunter2";
     start_status := start_st; end_status := end_st |}.

Definition login (password : string) (s : Native) : bool * (Native * list PamCall) :=
  authenticate pam_start pam_authenticate pam_end "alice" password "login" (s, []).

(** Three messages: a prompt, a text, a prompt. *)
Definition three_heap : gmap Z Block :=
  <[100 := MsgPtrArray [110; 120; 130]]>
  (<[110 := Msg {| msg_style := PAM_PROMPT_ECHO_OFF; msg := 111 |}]>
  (<[120 := Msg {| msg_style := PAM_TEXT_INFO; msg := 121 |}]>
  (<[130 := Msg {| msg_style := PAM_PROMPT_ECHO_OFF; msg := 131 |}]>
  (<[111 := CStr (encode_utf8 "Password: ")]>
  (<[121 := CStr (encode_utf8 "Last login: yesterday")]>
  (<[131 := CStr (encode_utf8 "Retype: ")]>
  (<[200 := RespPtr NULL]> ∅))))))).

Definition three_messages : list PamMessage :=
  [ {| msg_style := PAM_PROMPT_ECHO_OFF; msg := 111 |};
    {| msg_style := PAM_TEXT_INFO; msg := 121 |};
    {| msg_style := PAM_PROMPT_ECHO_OFF; msg := 131 |} ].

Definition three_world (addresses : list Z) : World :=
  {| heap := three_heap; libc := addresses; trace := [] |}.

End Demo.

(** ** What the callback leaves alone, and what it builds *)

(** Blocks the callback may overwrite: the out-parameter and response
    arrays.  Everything else is native data it only reads. *)
Definition writable (b : Block) : bool :=
  match b with
  | RespPtr _ | RespArray _ => true
  | _ => false
  end.

(** Every block of [w] that is not writable is still there in [w']. *)
Definition native_data_kept (w w' : World) : Prop :=
  ∀ x b, heap w !! x = Some b -> writable b = false -> heap w' !! x = Some b.

(** A computation that, started with a fresh allocator, keeps the allocator
    fresh and the native data in place, whatever its outcome. *)
Definition tidy {A} (c : M A) : Prop :=
  ∀ w r w', c w = (r, w') -> allocator_fresh w ->
    allocator_fresh w' ∧ native_data_kept w w'.

(** The callback in the middle of its loop: the out-parameter holds the
    address [a] of the response array, whose slots are [rs]. *)
Record conv_state (a p_response messages : Z) (ms : list PamMessage)
    (rs : list PamResponse) (w : World) : Prop := {
  cs_out : p_response ≠ NULL ∧ heap w !! p_response = Some (RespPtr a);
  cs_array : a ≠ NULL ∧ heap w !! a = Some (RespArray rs);
  cs_messages : read_messages (heap w) messages = Some ms;
  cs_fresh : allocator_fresh w
}.

(** The world after the loop body answered the prompt at index [i]. *)
Definition answered (password : string) (a : Z) (i : nat) (rs : list PamResponse)
    (w : World) : World :=
  let v := next_address (libc w) in
  {| heap := <[a := RespArray (<[i := answer v]> rs)]>
               (if decide (v = NULL) then heap w
                else <[v := CStr (c_str (encode_utf8 password))]> (heap w));
     libc := tail (libc w);
     trace := trace w ++ [CallStrdup (encode_utf8 password) v] |}.

(** ** Words of the specification about allocation failure *)

(** Some libc call among [calls] returned NULL. *)
Definition allocation_failed (calls : list LibcCall) : Prop :=
  ∃ c, c ∈ calls ∧ returned_null c = true.

(** The callback signals a failure: it does anything but complete with
    status 0. *)
Definition signals_failure (r : Res Z) : Prop := r ≠ Ok 0.

(** ** Python strings in general *)

(** A Python [str] is a sequence of code points, each below [0x110000].
    The code points from [U+D800] to [U+DFFF], the surrogates, may occur in
    a [str] but have no UTF-8 encoding. *)
Definition PyStr : Type := list N.

Definition is_surrogate (c : N) : bool := ((0xD800 <=? c) && (c <=? 0xDFFF))%N.

Definition byte_of_N (n : N) : byte := default x00 (Byte.of_N n).

(** The UTF-8 bytes of one code point. *)
Definition utf8_of_code_point (c : N) : list byte :=
  if (c <? 0x80)%N then
    [byte_of_N c]
  else if (c <? 0x800)%N then
    [byte_of_N (N.lor 0xC0 (N.shiftr c 6));
     byte_of_N (N.lor 0x80 (N.land c 0x3F))]
  else if (c <? 0x10000)%N then
    [byte_of_N (N.lor 0xE0 (N.shiftr c 12));
     byte_of_N (N.lor 0x80 (N.land (N.shiftr c 6) 0x3F));
     byte_of_N (N.lor 0x80 (N.land c 0x3F))]
  else
    [byte_of_N (N.lor 0xF0 (N.shiftr c 18));
     byte_of_N (N.lor 0x80 (N.land (N.shiftr c 12) 0x3F));
     byte_of_N (N.lor 0x80 (N.land (N.shiftr c 6) 0x3F));
     byte_of_N (N.lor 0x80 (N.land c 0x3F))].

(** [s.encode('utf-8')]: the bytes, or [None] where Python raises
    [UnicodeEncodeError], which it does when [s] holds a surrogate. *)
Definition str_encode_utf8 (s : PyStr) : option (list byte) :=
  if existsb is_surrogate s then None
  else Some (flat_map utf8_of_code_point s).

(** The [str] of an ASCII text. *)
Definition ascii_str (s : string) : PyStr :=
  map Ascii.N_of_ascii (list_ascii_of_string s).

(** The functions of [pam.py] on Python strings in general.  They are
    [my_conv] and [authenticate] above with the calls to [encode] made where
    the source makes them, each of which may raise. *)
Module Py.

(** [s.encode('utf-8')] inside the callback. *)
Definition encode (s : PyStr) : M (list byte) :=
  fun w =>
    match str_encode_utf8 s with
    | Some bs => (Ok bs, w)
    | None => (Raise UnicodeEncodeError, w)
    end.

(** The body of the loop of [my_conv] for index [i]. *)
Definition my_conv_step (password : PyStr) (messages p_response : Z) (i : nat) : M unit :=
  m <- message_at messages i ;;
  if decide (msg_style m = PAM_PROMPT_ECHO_OFF) then
    bs <- encode password ;;
    pw_copy <- STRDUP bs ;;
    update_response p_response i (set_resp pw_copy) ;;
    update_response p_response i (set_resp_retcode 0)
  else ret tt.

(** [my_conv(n_messages, messages, p_response, app_data)], closed over
    [password]. *)
Definition my_conv (password : PyStr)
    (n_messages messages p_response app_data : Z) : M Z :=
  addr <- CALLOC n_messages sizeof_PamResponse ;;
  setitem0 p_response addr ;;
  for_each (range n_messages) (my_conv_step password messages p_response) ;;
  ret 0.

Section Session.

Variable Native : Type.
Variable PAM_START :
  list byte -> list byte -> PamConv -> PamHandle -> Native -> (Z * PamHandle) * Native.
Variable PAM_AUTHENTICATE : PamHandle -> Z -> Native -> Z * Native.
Variable PAM_END : PamHandle -> Z -> Native -> Z * Native.

(** [authenticate(username, password, service='login')].  The arguments of
    [PAM_START] are evaluated before the call, [service.encode] first. *)
Definition authenticate (username password service : PyStr)
    : Session Native (Res bool) :=
  fun st =>
    let handle := PamHandle_init in
    let conv := {| conv := my_conv password; appdata_ptr := 0 |} in
    match str_encode_utf8 service with
    | None => (Raise UnicodeEncodeError, st)
    | Some service_bytes =>
        match str_encode_utf8 username with
        | None => (Raise UnicodeEncodeError, st)
        | Some username_bytes =>
            let '((retval, handle), st) :=
              call_PAM_START Native PAM_START service_bytes username_bytes conv handle st in
            if decide (retval ≠ 0) then
              let '(_, st) := call_PAM_END Native PAM_END handle retval st in
              (Ok false, st)
            else
              let '(retval, st) :=
                call_PAM_AUTHENTICATE Native PAM_AUTHENTICATE handle 0 st in
              let '(e, st) := call_PAM_END Native PAM_END handle retval st in
              (Ok (bool_decide (retval = 0) && bool_decide (e = 0)), st)
        end
    end.

End Session.

Arguments authenticate {Native} PAM_START PAM_AUTHENTICATE PAM_END username password service.

(** The descriptor [authenticate] builds. *)
Definition descriptor (password : PyStr) : PamConv :=
  {| conv := my_conv password; appdata_ptr := 0 |}.

End Py.

(** A [str] that does not encode: one lone surrogate, as [os.fsdecode]
    makes from an undecodable byte. *)
Definition lone_surrogate : PyStr := [0xDC80%N].

(** ** Loading the native libraries *)

(** Exceptions that leave the loading code.  [OSError] stands for the class
    with its subclasses, which is what [except OSError] catches;
    [OtherError] for an exception of any other class. *)
Inductive PyError :=
| OSError
| KeyError (key : string)
| AssertionError (message : string)
| OtherError (n : nat).

(** A call either returns or raises. *)
Inductive Try (A : Type) :=
| Returns (a : A)
| Raises (e : PyError).

Arguments Returns {A} a.
Arguments Raises {A} e.

Definition returned {A} (r : Try A) : bool :=
  match r with Returns _ => true | Raises _ => false end.

(** How a block of statements ends inside a function. *)
Inductive Flow (A B : Type) :=
| Returned (v : A)          (* a [return] statement left the function *)
| Completed (locals : B).   (* the block ran to its end *)

Arguments Returned {A B} v.
Arguments Completed {A B} locals.

(** Calls from the loading code into [ctypes], [arpy], [tempfile], [os] and
    [atexit].  A file object is known by the descriptor it wraps. *)
Inductive SysCall :=
| CallFindLibrary (nickname : string)
| CallCDLL (name : string)
| CallImport (module : string)
| CallAIXBigArchive (path : string)
| CallReadAllHeaders
| CallMkstemp
| CallFdopen (fd : Z)
| CallAtexitRegister (path : string)
| CallMemberRead
| CallWrite (fd : Z) (data : list byte)
| CallClose (fd : Z).

(** A logged call, with whether it returned ([true]) or raised. *)
Definition Event : Type := SysCall * bool.

(** What the interpreter and the operating system provide.  [Sys] is the
    state of the machine (file system, dynamic loader, exit handlers); it is
    opaque to the program and every operation may change it. *)
Class Runtime := {
  Sys : Type;
  Library : Type;                  (* what [CDLL] returns *)
  Archive : Type;                  (* an [arpy.AIXBigArchive] *)
  Member : Type;                   (* an archived file *)
  find_library : string -> Sys -> option string * Sys;
  CDLL : string -> Sys -> Try Library * Sys;
  import_module : string -> Sys -> Try unit * Sys;   (* an [import] statement *)
  AIXBigArchive : string -> Sys -> Try Archive * Sys;
  read_all_headers : Archive -> Sys -> Try unit * Sys;
  archived_files : Archive -> Sys -> gmap string Member;
  mkstemp : Sys -> Try (Z * string) * Sys;
  fdopen : Z -> Sys -> Try unit * Sys;
  atexit_register : string -> Sys -> Try unit * Sys;
  member_read : Member -> Sys -> Try (list byte) * Sys;
  file_write : Z -> list byte -> Sys -> Try unit * Sys;
  file_close : Z -> Sys -> Try unit * Sys
}.

Section Loading.

Context `{Runtime}.

(** The loading code threads the machine and the log of its calls, oldest
    first; the machine sees only its own state. *)
Definition Load (A : Type) : Type := Sys * list Event -> A * (Sys * list Event).

Definition logged {A} (c : SysCall) (op : Sys -> Try A * Sys) : Load (Try A) :=
  fun '(s, log) =>
    let '(r, s') := op s in
    (r, (s', log ++ [(c, returned r)])).

Definition call_find_library (nickname : string) : Load (option string) :=
  fun '(s, log) =>
    let '(r, s') := find_library nickname s in
    (r, (s', log ++ [(CallFindLibrary nickname, true)])).

Definition call_CDLL (name : string) : Load (Try Library) :=
  logged (CallCDLL name) (CDLL name).

(** The [for name in search_names] loop of [load_library]; [library] is the
    local variable as the loop finds it. *)
Fixpoint load_library_loop (search_names : list string) (library : option Library)
    : Load (Try (Flow (option Library) (option Library))) :=
  fun st =>
    match search_names with
    | [] => (Returns (Completed library), st)
    | name :: search_names' =>
        let '(r, st) := call_CDLL name st in
        let attempt :=
          match r with
          | Returns l => Returns (Some l)     (* library = CDLL(name) *)
          | Raises OSError => Returns None    (* except OSError: library = None *)
          | Raises e => Raises e
          end in
        match attempt with
        | Raises e => (Raises e, st)
        | Returns (Some l) => (Returns (Returned (Some l)), st)
        | Returns None => load_library_loop search_names' None st
        end
    end.

(** [load_library(nickname, search_names=None)].  The second component of
    the result is the list object the function worked on, as it leaves it:
    the caller's own list when one was passed. *)
Definition load_library (nickname : string) (search_names : option (list string))
    : Load (Try (option Library) * list string) :=
  fun st =>
    let library : option Library := None in
    let search_names := match search_names with None => [] | Some l => l end in
    let '(guess_path, st) := call_find_library nickname st in
    let search_names :=
      match guess_path with
      | Some g => g :: search_names            (* search_names.insert(0, guess_path) *)
      | None => search_names
      end in
    let '(r, st) := load_library_loop search_names library st in
    (match r with
     | Raises e => Raises e
     | Returns (Returned v) => Returns v
     | Returns (Completed library) =>
         match library with
         | None =>
             Raises (AssertionError
                       ("Failed to load '" ++ nickname ++ "' library.")%string)
         | Some _ => Returns None              (* the end of the function *)
         end
     end, search_names, st).

(** [import] statements, one after the other. *)
Fixpoint import_modules (modules : list string) : Load (Try unit) :=
  fun st =>
    match modules with
    | [] => (Returns tt, st)
    | module :: modules' =>
        let '(r, st) := logged (CallImport module) (import_module module) st in
        match r with
        | Raises e => (Raises e, st)
        | Returns _ => import_modules modules' st
        end
    end.

(** The modules [load_library_from_aix_archive] imports when it is called,
    in the order of its [import] statements. *)
Definition aix_imports : list string := ["atexit"; "tempfile"; "arpy"]%string.

(** Each of [modules] is imported in turn, taking the machine from [s] to
    [s']. *)
Fixpoint imported (modules : list string) (s s' : Sys) : Prop :=
  match modules with
  | [] => s' = s
  | module :: modules' =>
      ∃ s1, import_module module s = (Returns tt, s1) ∧ imported modules' s1 s'
  end.

(** The [try] block of [load_library_from_aix_archive].  Besides its outcome
    it gives the locals [temp_file] and [path] as it leaves them. *)
Definition load_library_from_aix_archive_try (member : Member)
    (temp_file : option Z) (path : string)
    : Load (Try unit * (option Z * string)) :=
  fun st =>
    let '(r, st) := logged CallMkstemp mkstemp st in
    match r with
    | Raises e => ((Raises e, (temp_file, path)), st)
    | Returns (temp_fd, path) =>
        let '(r, st) := logged (CallFdopen temp_fd) (fdopen temp_fd) st in
        match r with
        | Raises e => ((Raises e, (temp_file, path)), st)
        | Returns _ =>
            let temp_file := Some temp_fd in
            let '(r, st) := logged (CallAtexitRegister path) (atexit_register path) st in
            match r with
            | Raises e => ((Raises e, (temp_file, path)), st)
            | Returns _ =>
                let '(r, st) := logged CallMemberRead (member_read member) st in
                match r with
                | Raises e => ((Raises e, (temp_file, path)), st)
                | Returns data =>
                    let '(r, st) :=
                      logged (CallWrite temp_fd data) (file_write temp_fd data) st in
                    ((r, (temp_file, path)), st)
                end
            end
        end
    end.

(** [load_library_from_aix_archive(path, member_name='shr.o')] *)
Definition load_library_from_aix_archive (path member_name : string)
    : Load (Try Library) :=
  fun st =>
    let '(r, st) := import_modules aix_imports st in
    match r with
    | Raises e => (Raises e, st)
    | Returns _ =>
    let '(r, st) := logged (CallAIXBigArchive path) (AIXBigArchive path) st in
    match r with
    | Raises e => (Raises e, st)
    | Returns archive =>
        let '(r, st) := logged CallReadAllHeaders (read_all_headers archive) st in
        match r with
        | Raises e => (Raises e, st)
        | Returns _ =>
            match archived_files archive (fst st) !! member_name with
            | None => (Raises (KeyError member_name), st)
            | Some member =>
                let temp_file : option Z := None in
                let '((r, (temp_file, path)), st) :=
                  load_library_from_aix_archive_try member temp_file path st in
                let '(closed, st) :=                      (* finally *)
                  match temp_file with
                  | Some fd => logged (CallClose fd) (file_close fd) st
                  | None => (Returns tt, st)
                  end in
                match closed, r with
                | Raises e, _ => (Raises e, st)
                | Returns _, Raises e => (Raises e, st)
                | Returns _, Returns _ => call_CDLL path st
                end
            end
        end
    end
    end.

(** The default of [member_name]. *)
Definition default_member_name : string := "shr.o".

(** The module's own loading of [LIBPAM] and [LIBC], by [sys.platform]. *)
Definition load_LIBPAM_LIBC (platform : string)
    : Load (Try (option Library * option Library)) :=
  fun st =>
    if String.prefix "aix" platform then
      let '(r, st) := load_library_from_aix_archive "/lib/libpam.a" default_member_name st in
      match r with
      | Raises e => (Raises e, st)
      | Returns LIBPAM =>
          let '(r, st) :=
            load_library_from_aix_archive "/lib/libc.a" default_member_name st in
          match r with
          | Raises e => (Raises e, st)
          | Returns LIBC => (Returns (Some LIBPAM, Some LIBC), st)
          end
      end
    else
      let '((r, _), st) :=
        load_library "pam" (Some ["libpam.so"; "libpam.so.0"; "libpam.so.1"]%string) st in
      match r with
      | Raises e => (Raises e, st)
      | Returns LIBPAM =>
          let '((r, _), st) :=
            load_library "c" (Some ["libc.so"; "libc.so.6"; "libc.so.5"]%string) st in
          match r with
          | Raises e => (Raises e, st)
          | Returns LIBC => (Returns (LIBPAM, LIBC), st)
          end
      end.

(** [CDLL] raises [OSError] on each of [names] in turn, taking the machine
    from [s] to [s']. *)
Fixpoint refused (names : list string) (s s' : Sys) : Prop :=
  match names with
  | [] => s' = s
  | name :: names' =>
      ∃ s1, CDLL name s = (Raises OSError, s1) ∧ refused names' s1 s'
  end.

(** The names [load_library] tries, in order: the guess of [find_library]
    when there is one, then the names it was given. *)
Definition candidates (guess_path : option string) (search_names : option (list string))
    : list string :=
  match guess_path with
  | Some g => g :: default [] search_names
  | None => default [] search_names
  end.

End Loading.

Definition is_close (e : Event) : bool :=
  match e with (CallClose _, _) => true | _ => false end.
Definition is_opened (e : Event) : bool :=
  match e with (CallFdopen _, true) => true | _ => false end.
Definition is_CDLL (e : Event) : bool :=
  match e with (CallCDLL _, _) => true | _ => false end.
Definition is_archive_call (e : Event) : bool :=
  match e with
  | (CallFindLibrary _, _) | (CallCDLL _, _) => false
  | _ => true
  end.
Definition is_find_library (e : Event) : bool :=
  match e with (CallFindLibrary _, _) => true | _ => false end.

(** ** A small machine, to run the loading code on *)

Module DemoSys.

Record Machine := {
  shared_objects : list string;          (* the names the dynamic loader resolves *)
  rejected : list string;                (* names on which [CDLL] raises something else *)
  linker_cache : list (string * string); (* what [find_library] knows *)
  members : gmap string (list byte);     (* the members of every archive *)
  can_fdopen : bool;                     (* whether [os.fdopen] succeeds *)
  disk_full : bool                       (* whether writing to a file fails *)
}.

Definition lookup_cache (nickname : string) (cache : list (string * string))
    : option string :=
  snd <$> List.find (λ kv, String.eqb (fst kv) nickname) cache.

Definition dlopen (name : string) (s : Machine) : Try string * Machine :=
  if existsb (String.eqb name) (rejected s) then (Raises (OtherError 0), s)
  else if existsb (String.eqb name) (shared_objects s) then (Returns name, s)
  else (Raises OSError, s).

#[local] Instance runtime : Runtime := {|
  Sys := Machine;
  Library := string;
  Archive := string;
  Member := list byte;
  find_library := λ nickname s, (lookup_cache nickname (linker_cache s), s);
  CDLL := dlopen;
  import_module := λ _ s, (Returns tt, s);
  AIXBigArchive := λ path s, (Returns path, s);
  read_all_headers := λ _ s, (Returns tt, s);
  archived_files := λ _ s, members s;
  mkstemp := λ s, (Returns (3, "/tmp/tmpq3xk"%string), s);
  fdopen := λ fd s, (if can_fdopen s then Returns tt else Raises OSError, s);
  atexit_register := λ _ s, (Returns tt, s);
  member_read := λ m s, (Returns m, s);
  file_write := λ _ _ s, (if disk_full s then Raises OSError else Returns tt, s);
  file_close := λ _ s, (Returns tt, s)
|}.

(** A Linux machine with libpam under its versioned name only. *)
Definition linux : Machine :=
  {| shared_objects := ["libpam.so.0"; "libc.so.6"]%string;
     rejected := [];
     linker_cache := [("c", "libc.so.6")]%string;
     members := ∅;
     can_fdopen := true;
     disk_full := false |}.

(** A machine without libpam. *)
Definition bare : Machine :=
  {| shared_objects := ["libc.so.6"]%string;
     rejected := ["libpam.so.0"]%string;
     linker_cache := [];
     members := ∅;
     can_fdopen := true;
     disk_full := false |}.

(** A machine on which no name of libpam resolves. *)
Definition without_pam : Machine :=
  {| shared_objects := ["libc.so.6"]%string;
     rejected := [];
     linker_cache := [("c", "libc.so.6")]%string;
     members := ∅;
     can_fdopen := true;
     disk_full := false |}.

(** An AIX machine: the archives hold [shr.o]. *)
Definition aix (fdopen_works no_space : bool) : Machine :=
  {| shared_objects := ["/tmp/tmpq3xk"]%string;
     rejected := [];
     linker_cache := [];
     members := {[ "shr.o"%string := [x7f; x45; x4c; x46] ]};
     can_fdopen := fdopen_works;
     disk_full := no_space |}.

End DemoSys.

(** ** What the callback may write *)

(** The heaps of [w] and [w'] agree outside the addresses in [S]. *)
Definition changed_only (S : Z -> Prop) (w w' : World) : Prop :=
  ∀ x, ¬ S x -> heap w' !! x = heap w !! x.

(** ** An account on the small libpam *)

(** A machine of [Demo] whose account has the password [secret], where
    [pam_start] and [pam_end] answer 0. *)
Definition account (secret : list byte) (addresses : list Z) : Demo.Native :=
  {| Demo.registered := None;
     Demo.memory := {| heap := Demo.prompt_heap; libc := addresses; trace := [] |};
     Demo.secret := secret;
     Demo.start_status := 0;
     Demo.end_status := 0 |}.

(** * Properties of the session *)

Section SessionFacts.

Context {Native : Type}.
Variable PAM_START :
  list byte -> list byte -> PamConv -> PamHandle -> Native -> (Z * PamHandle) * Native.
Variable PAM_AUTHENTICATE : PamHandle -> Z -> Native -> Z * Native.
Variable PAM_END : PamHandle -> Z -> Native -> Z * Native.

Local Abbreviation run := (authenticate PAM_START PAM_AUTHENTICATE PAM_END).

(** The run after a failed start. *)
Lemma authenticate_start_failed username password service s0 log status h s1 e s2 :
  PAM_START (encode_utf8 service) (encode_utf8 username) (descriptor password)
            PamHandle_init s0 = ((status, h), s1) ->
  status ≠ 0 ->
  PAM_END h status s1 = (e, s2) ->
  run username password service (s0, log) =
    (false,
     (s2, (log ++ [CallStart (encode_utf8 service) (encode_utf8 username) 0 status h])
            ++ [CallEnd h status e])).
Proof.
  intros Hstart Hne Hend.
  unfold authenticate, call_PAM_START, call_PAM_END. fold (descriptor password).
  rewrite Hstart. simpl. destruct (decide (status ≠ 0)) as [_ | Hz]; [| done].
  by rewrite Hend.
Qed.

(** The run after a successful start. *)
Lemma authenticate_started username password service s0 log h s1 auth s2 e s3 :
  PAM_START (encode_utf8 service) (encode_utf8 username) (descriptor password)
            PamHandle_init s0 = ((0, h), s1) ->
  PAM_AUTHENTICATE h 0 s1 = (auth, s2) ->
  PAM_END h auth s2 = (e, s3) ->
  run username password service (s0, log) =
    (bool_decide (auth = 0) && bool_decide (e = 0),
     (s3, ((log ++ [CallStart (encode_utf8 service) (encode_utf8 username) 0 0 h])
             ++ [CallAuthenticate h 0 auth]) ++ [CallEnd h auth e])).
Proof.
  intros Hstart Hauth Hend.
  unfold authenticate, call_PAM_START, call_PAM_AUTHENTICATE, call_PAM_END.
  fold (descriptor password).
  rewrite Hstart. simpl. destruct (decide (0 ≠ 0)) as [Hz | _]; [done |].
  rewrite Hauth. by rewrite Hend.
Qed.

(** C1. When [pam_start] returns 0, [authenticate] returns [True] exactly
    when [pam_authenticate] and [pam_end] both return 0; in particular a
    nonzero status of [pam_end] after a successful [pam_authenticate] gives
    [False]. *)
Theorem authenticate_true_iff username password service s0 log h s1 auth s2 e s3 :
  PAM_START (encode_utf8 service) (encode_utf8 username) (descriptor password)
            PamHandle_init s0 = ((0, h), s1) ->
  PAM_AUTHENTICATE h 0 s1 = (auth, s2) ->
  PAM_END h auth s2 = (e, s3) ->
  (fst (run username password service (s0, log)) = true ↔ auth = 0 ∧ e = 0) ∧
  (auth = 0 -> e ≠ 0 -> fst (run username password service (s0, log)) = false).
Proof.
  intros Hstart Hauth Hend.
  rewrite (authenticate_started _ _ _ _ _ _ _ _ _ _ _ Hstart Hauth Hend). simpl.
  split.
  - rewrite andb_true_iff, !bool_decide_eq_true. tauto.
  - intros -> Hne. by rewrite (bool_decide_eq_false_2 (e = 0)).
Qed.

(** C2. When [pam_start] returns a nonzero status, [authenticate] makes two
    calls, [pam_start] and then [pam_end] with the handle and that status;
    [pam_authenticate] is not called (no such call is logged and the native
    state is the one [pam_end] left), and the result is [False]. *)
Theorem authenticate_start_failure username password service s0 log status h s1 e s2 :
  PAM_START (encode_utf8 service) (encode_utf8 username) (descriptor password)
            PamHandle_init s0 = ((status, h), s1) ->
  status ≠ 0 ->
  PAM_END h status s1 = (e, s2) ->
  ∃ calls,
    run username password service (s0, log) = (false, (s2, log ++ calls)) ∧
    filter is_authenticate calls = [] ∧
    filter is_end calls = [CallEnd h status e].
Proof.
  intros Hstart Hne Hend.
  exists [CallStart (encode_utf8 service) (encode_utf8 username) 0 status h;
          CallEnd h status e].
  rewrite (authenticate_start_failed _ _ _ _ _ _ _ _ _ _ Hstart Hne Hend).
  by rewrite <- app_assoc.
Qed.

Local Abbreviation run_str := (Py.authenticate PAM_START PAM_AUTHENTICATE PAM_END).

(** [Py.authenticate] when one of the two names does not encode: the
    exception leaves before any call into libpam. *)
Lemma authenticate_unencodable username password service st :
  str_encode_utf8 service = None ∨ str_encode_utf8 username = None ->
  run_str username password service st = (Raise UnicodeEncodeError, st).
Proof.
  unfold Py.authenticate. intros [-> | Hu]; [done |].
  rewrite Hu. by destruct (str_encode_utf8 service).
Qed.

(** [Py.authenticate] after a failed start. *)
Lemma authenticate_str_start_failed username password service service_bytes
    username_bytes s0 log status h s1 e s2 :
  str_encode_utf8 service = Some service_bytes ->
  str_encode_utf8 username = Some username_bytes ->
  PAM_START service_bytes username_bytes (Py.descriptor password) PamHandle_init s0
    = ((status, h), s1) ->
  status ≠ 0 ->
  PAM_END h status s1 = (e, s2) ->
  run_str username password service (s0, log) =
    (Ok false,
     (s2, (log ++ [CallStart service_bytes username_bytes 0 status h])
            ++ [CallEnd h status e])).
Proof.
  intros Hs Hu Hstart Hne Hend.
  unfold Py.authenticate, call_PAM_START, call_PAM_END. fold (Py.descriptor password).
  rewrite Hs, Hu, Hstart. simpl.
  destruct (decide (status ≠ 0)) as [_ | Hz]; [| done].
  by rewrite Hend.
Qed.

(** [Py.authenticate] after a successful start. *)
Lemma authenticate_str_started username password service service_bytes
    username_bytes s0 log h s1 auth s2 e s3 :
  str_encode_utf8 service = Some service_bytes ->
  str_encode_utf8 username = Some username_bytes ->
  PAM_START service_bytes username_bytes (Py.descriptor password) PamHandle_init s0
    = ((0, h), s1) ->
  PAM_AUTHENTICATE h 0 s1 = (auth, s2) ->
  PAM_END h auth s2 = (e, s3) ->
  run_str username password service (s0, log) =
    (Ok (bool_decide (auth = 0) && bool_decide (e = 0)),
     (s3, ((log ++ [CallStart service_bytes username_bytes 0 0 h])
             ++ [CallAuthenticate h 0 auth]) ++ [CallEnd h auth e])).
Proof.
  intros Hs Hu Hstart Hauth Hend.
  unfold Py.authenticate, call_PAM_START, call_PAM_AUTHENTICATE, call_PAM_END.
  fold (Py.descriptor password).
  rewrite Hs, Hu, Hstart. simpl.
  destruct (decide (0 ≠ 0)) as [Hz | _]; [done |].
  rewrite Hauth. by rewrite Hend.
Qed.

(** C4, amended.  On every run of [authenticate] the calls into libpam are
    of one of three shapes.  When [service] or [username] has no UTF-8
    encoding, [encode] raises [UnicodeEncodeError] before [pam_start]: no
    call is made, neither start nor end.  Otherwise [pam_start] is called,
    and the calls are start, end (start failed) or start, authenticate,
    end: [pam_end] is called exactly once, last, with the handle and the
    status of the call before it.  In all three cases there are as many end
    calls as start calls. *)
Theorem authenticate_ends_what_it_started username password service s0 log :
  ∃ calls,
    snd (snd (run_str username password service (s0, log))) = log ++ calls ∧
    length (filter is_end calls) = length (filter is_start calls) ∧
    match str_encode_utf8 service, str_encode_utf8 username with
    | Some service_bytes, Some username_bytes =>
        length (filter is_end calls) = 1%nat ∧
        ∃ start h e,
          (start ≠ 0 ∧
           calls = [CallStart service_bytes username_bytes 0 start h;
                    CallEnd h start e]) ∨
          (start = 0 ∧ ∃ auth,
           calls = [CallStart service_bytes username_bytes 0 start h;
                    CallAuthenticate h 0 auth;
                    CallEnd h auth e])
    | _, _ =>
        calls = [] ∧
        run_str username password service (s0, log)
          = (Raise UnicodeEncodeError, (s0, log))
    end.
Proof.
  destruct (str_encode_utf8 service) as [service_bytes |] eqn:Hs;
    [destruct (str_encode_utf8 username) as [username_bytes |] eqn:Hu |].
  - destruct (PAM_START service_bytes username_bytes (Py.descriptor password)
                PamHandle_init s0) as [[start h] s1] eqn:Hstart.
    destruct (decide (start = 0)) as [-> | Hne].
    + destruct (PAM_AUTHENTICATE h 0 s1) as [auth s2] eqn:Hauth.
      destruct (PAM_END h auth s2) as [e s3] eqn:Hend.
      eexists.
      rewrite (authenticate_str_started _ _ _ _ _ _ _ _ _ _ _ _ _ Hs Hu Hstart Hauth Hend).
      simpl. rewrite <- !app_assoc. simpl.
      split; [reflexivity |]. split; [done |]. split; [done |].
      exists 0, h, e. right. eauto.
    + destruct (PAM_END h start s1) as [e s2] eqn:Hend.
      eexists.
      rewrite (authenticate_str_start_failed _ _ _ _ _ _ _ _ _ _ _ _ Hs Hu Hstart Hne Hend).
      simpl. rewrite <- !app_assoc. simpl.
      split; [reflexivity |]. split; [done |]. split; [done |].
      exists start, h, e. left. eauto.
  - exists []. rewrite (authenticate_unencodable _ _ _ _ (or_intror Hu)).
    simpl. by rewrite app_nil_r.
  - exists []. rewrite (authenticate_unencodable _ _ _ _ (or_introl Hs)).
    simpl. by rewrite app_nil_r.
Qed.

End SessionFacts.

(** A pair is determined by its first component and its own second one. *)
Lemma pair_eta_fst {A B} (x : A * B) (a : A) : fst x = a -> x = (a, snd x).
Proof. intros <-. by destruct x. Qed.

(** C1 at work: the right password on a healthy machine, where all three
    calls return 0. *)
Lemma authenticate_true_iff_witness :
  (fst (Demo.login "hunter2" (Demo.machine 0 0 [300; 310])) = true ↔ 0 = 0 ∧ 0 = 0) ∧
  (0 = 0 -> 0 ≠ 0 -> fst (Demo.login "hunter2" (Demo.machine 0 0 [300; 310])) = false).
Proof.
  unfold Demo.login.
  eapply (authenticate_true_iff Demo.pam_start Demo.pam_authenticate Demo.pam_end
            "alice" "hunter2" "login" (Demo.machine 0 0 [300; 310]) []).
  - reflexivity.
  - apply pair_eta_fst. vm_compute. reflexivity.
  - apply pair_eta_fst. vm_compute. reflexivity.
Defined.

(** C2 at work: [pam_start] answers 3. *)
Lemma authenticate_start_failure_witness :
  ∃ calls,
    Demo.login "hunter2" (Demo.machine 3 0 [300; 310]) =
      (false,
       (snd (Demo.pam_start (encode_utf8 "login") (encode_utf8 "alice")
               (descriptor "hunter2") PamHandle_init (Demo.machine 3 0 [300; 310])),
        [] ++ calls)) ∧
    filter is_authenticate calls = [] ∧
    filter is_end calls = [CallEnd {| handle := 4096 |} 3 0].
Proof.
  unfold Demo.login.
  eapply (authenticate_start_failure Demo.pam_start Demo.pam_authenticate Demo.pam_end
            "alice" "hunter2" "login" (Demo.machine 3 0 [300; 310]) [] 3).
  - reflexivity.
  - lia.
  - reflexivity.
Defined.

(** * Properties of the conversation callback *)

(** ** What the callback leaves alone *)

Lemma native_data_kept_refl w : native_data_kept w w.
Proof. by intros x b. Qed.

Lemma native_data_kept_trans w1 w2 w3 :
  native_data_kept w1 w2 -> native_data_kept w2 w3 -> native_data_kept w1 w3.
Proof. intros H12 H23 x b Hx Hb. eauto. Qed.

Lemma tidy_ret {A} (a : A) : tidy (ret a).
Proof.
  intros w r w' [= <- <-] Hf. split; [done | apply native_data_kept_refl].
Qed.

Lemma tidy_bind {A B} (c : M A) (k : A -> M B) :
  tidy c -> (∀ a, tidy (k a)) -> tidy (bind c k).
Proof.
  intros Hc Hk w r w' Hrun Hf. unfold bind in Hrun.
  destruct (c w) as [[a | e |] w1] eqn:Hcw.
  - destruct (Hc _ _ _ Hcw Hf) as [Hf1 Hk1].
    destruct (Hk a _ _ _ Hrun Hf1) as [Hf2 Hk2].
    split; [done | by eapply native_data_kept_trans].
  - injection Hrun as <- <-. by eapply Hc.
  - injection Hrun as <- <-. by eapply Hc.
Qed.

Lemma tidy_for_each {A} (l : list A) (body : A -> M unit) :
  (∀ x, tidy (body x)) -> tidy (for_each l body).
Proof.
  intros Hbody. induction l as [| x l IH]; simpl.
  - apply tidy_ret.
  - apply tidy_bind; [apply Hbody | intros _; apply IH].
Qed.

(** Overwriting a writable block keeps the allocator fresh and the native
    data in place. *)
Lemma put_block_tidy a b0 b w :
  heap w !! a = Some b0 -> writable b0 = true -> allocator_fresh w ->
  allocator_fresh (put_block a b w) ∧ native_data_kept w (put_block a b w).
Proof.
  intros Ha Hw [Hnd Hall]. split.
  - split; [done |]. simpl.
    eapply Forall_impl; [exact Hall |]. intros x Hx Hne.
    rewrite lookup_insert_ne; [by apply Hx |].
    intros ->. rewrite (Hx Hne) in Ha. done.
  - intros x b' Hx Hb'. simpl.
    rewrite lookup_insert_ne; [done |].
    intros ->. rewrite Ha in Hx. injection Hx as ->. congruence.
Qed.

Lemma tidy_allocate b call : tidy (allocate b call).
Proof.
  intros w r w' Hrun [Hnd Hall]. unfold allocate in Hrun.
  destruct (libc w) as [| a rest] eqn:Hl.
  - injection Hrun as <- <-. split; [| by intros x b'].
    split; simpl; [constructor | constructor].
  - rewrite Forall_cons in Hall. destruct Hall as [Ha Hrest].
    destruct (decide (a = NULL)) as [-> | Hne].
    + injection Hrun as <- <-. split; [| by intros x b'].
      split; simpl; [| done].
      rewrite filter_cons_False in Hnd; [done | by intros ?].
    + injection Hrun as <- <-.
      rewrite filter_cons_True in Hnd by done.
      apply NoDup_cons in Hnd as [Hnotin Hnd].
      split.
      * split; simpl; [done |].
        rewrite Forall_forall in Hrest. apply Forall_forall.
        intros x Hx Hxne. rewrite lookup_insert_ne; [by apply Hrest |].
        intros ->. apply Hnotin. by apply list_elem_of_filter.
      * intros x b' Hx _. simpl. rewrite lookup_insert_ne; [done |].
        intros ->. rewrite (Ha Hne) in Hx. done.
Qed.

Lemma tidy_setitem0 p v : tidy (setitem0 p v).
Proof.
  intros w r w' Hrun Hf. unfold setitem0 in Hrun.
  destruct (decide (p = NULL)).
  { injection Hrun as <- <-. split; [done | apply native_data_kept_refl]. }
  destruct (heap w !! p) as [[ | | old | |] |] eqn:Hp;
    injection Hrun as <- <-; try (split; [done | apply native_data_kept_refl]).
  by eapply put_block_tidy.
Qed.

Lemma tidy_message_at messages i : tidy (message_at messages i).
Proof.
  intros w r w' Hrun Hf. unfold message_at in Hrun.
  assert (w' = w) as ->; [| split; [done | apply native_data_kept_refl]].
  repeat (case_match; simplify_eq); done.
Qed.

Lemma tidy_update_response p i f : tidy (update_response p i f).
Proof.
  intros w r w' Hrun Hf. unfold update_response in Hrun.
  destruct (decide (p = NULL)).
  { injection Hrun as <- <-. split; [done | apply native_data_kept_refl]. }
  destruct (heap w !! p) as [[ | | a | |] |] eqn:Hp;
    try (injection Hrun as <- <-; split; [done | apply native_data_kept_refl]).
  destruct (decide (a = NULL)).
  { injection Hrun as <- <-. split; [done | apply native_data_kept_refl]. }
  destruct (heap w !! a) as [[ | | | rs |] |] eqn:Ha;
    try (injection Hrun as <- <-; split; [done | apply native_data_kept_refl]).
  destruct (rs !! i) as [r0 |];
    injection Hrun as <- <-; [| split; [done | apply native_data_kept_refl]].
  by eapply put_block_tidy.
Qed.

Lemma tidy_my_conv password n messages p app :
  tidy (my_conv password n messages p app).
Proof.
  unfold my_conv.
  apply tidy_bind; [apply tidy_allocate | intros addr].
  apply tidy_bind; [apply tidy_setitem0 | intros _].
  apply tidy_bind; [| intros _; apply tidy_ret].
  apply tidy_for_each. intros i. unfold my_conv_step.
  apply tidy_bind; [apply tidy_message_at | intros m].
  case_decide; [| apply tidy_ret].
  apply tidy_bind; [apply tidy_allocate | intros v].
  apply tidy_bind; [apply tidy_update_response | intros _].
  apply tidy_update_response.
Qed.

(** ** Reading the messages *)

Lemma message_at_read w messages ms i m :
  read_messages (heap w) messages = Some ms -> ms !! i = Some m ->
  message_at messages i w = (Ok m, w).
Proof.
  unfold read_messages, message_at. intros Hread Hi.
  destruct (decide (messages = NULL)); [done |].
  destruct (heap w !! messages) as [[ps | | | |] |]; try done.
  apply mapM_Some in Hread.
  destruct (Forall2_lookup_r _ _ _ _ _ Hread Hi) as (q & -> & Hq).
  unfold read_message in Hq.
  destruct (decide (q = NULL)); [done |].
  destruct (heap w !! q) as [[| m' | | |] |]; try done. by injection Hq as ->.
Qed.

Lemma read_messages_kept w w' messages ms :
  native_data_kept w w' ->
  read_messages (heap w) messages = Some ms ->
  read_messages (heap w') messages = Some ms.
Proof.
  unfold read_messages. intros Hk Hread.
  destruct (decide (messages = NULL)); [done |].
  destruct (heap w !! messages) as [[ps | | | |] |] eqn:Hm; try done.
  rewrite (Hk _ _ Hm eq_refl).
  apply mapM_Some. apply mapM_Some in Hread.
  eapply Forall2_impl; [exact Hread |].
  intros q m Hq. unfold read_message in *.
  destruct (decide (q = NULL)); [done |].
  destruct (heap w !! q) as [[| m' | | |] |] eqn:Hq'; try done.
  by rewrite (Hk _ _ Hq' eq_refl).
Qed.

(** ** One turn of the loop *)

(** The two assignments to [p_response.contents[i]] together. *)
Lemma update_response_twice w a p rs i v :
  p ≠ NULL -> heap w !! p = Some (RespPtr a) ->
  a ≠ NULL -> heap w !! a = Some (RespArray rs) ->
  (i < length rs)%nat ->
  bind (update_response p i (set_resp v))
       (fun _ => update_response p i (set_resp_retcode 0)) w =
    (Ok tt, put_block a (RespArray (<[i := answer v]> rs)) w).
Proof.
  intros Hp Hptr Ha Harr Hi.
  assert (a ≠ p) as Hap by (intros ->; congruence).
  destruct (lookup_lt_is_Some_2 rs i Hi) as [r Hr].
  unfold bind, update_response at 1.
  rewrite decide_False by done. rewrite Hptr, decide_False by done.
  rewrite Harr, Hr.
  unfold update_response, put_block. simpl.
  rewrite decide_False by done.
  rewrite lookup_insert_ne by done. rewrite Hptr, decide_False by done.
  rewrite lookup_insert_eq. rewrite list_lookup_insert_eq by done.
  rewrite insert_insert_eq, list_insert_insert_eq. done.
Qed.

(** A message that is not a password prompt changes nothing. *)
Lemma my_conv_step_other password a p messages ms rs w i m :
  conv_state a p messages ms rs w -> ms !! i = Some m -> is_prompt m = false ->
  my_conv_step password messages p i w = (Ok tt, w).
Proof.
  intros Hs Hm Hstyle. unfold my_conv_step, bind.
  rewrite (message_at_read _ _ _ _ _ (cs_messages _ _ _ _ _ _ Hs) Hm).
  apply bool_decide_eq_false in Hstyle. by rewrite decide_False.
Qed.

(** A password prompt asks [strdup] for a copy of the password and stores
    whatever it returned, with return code 0. *)
Lemma my_conv_step_prompt password a p messages ms rs w i m :
  conv_state a p messages ms rs w -> ms !! i = Some m -> is_prompt m = true ->
  (i < length rs)%nat ->
  my_conv_step password messages p i w = (Ok tt, answered password a i rs w).
Proof.
  intros [[Hp Hptr] [Ha Harr] Hread [Hnd Hall]] Hm Hstyle Hi.
  unfold my_conv_step. unfold bind at 1.
  rewrite (message_at_read _ _ _ _ _ Hread Hm).
  apply bool_decide_eq_true in Hstyle. rewrite decide_True by done.
  unfold bind at 1. unfold STRDUP, allocate, answered.
  destruct (libc w) as [| v rest] eqn:Hl; simpl.
  - by rewrite (update_response_twice _ a p rs i NULL).
  - destruct (decide (v = NULL)) as [-> | Hv].
    + by rewrite (update_response_twice _ a p rs i NULL).
    + apply Forall_cons in Hall as [Hfree _]. specialize (Hfree Hv).
      rewrite (update_response_twice _ a p rs i v); try done; simpl.
      * rewrite lookup_insert_ne; [done | congruence].
      * rewrite lookup_insert_ne; [done | congruence].
Qed.

Lemma tidy_my_conv_step password messages p i :
  tidy (my_conv_step password messages p i).
Proof.
  unfold my_conv_step.
  apply tidy_bind; [apply tidy_message_at | intros m].
  case_decide; [| apply tidy_ret].
  apply tidy_bind; [apply tidy_allocate | intros v].
  apply tidy_bind; apply tidy_update_response || (intros _; apply tidy_update_response).
Qed.

(** The next address of a fresh allocator is NULL or not in use. *)
Lemma next_address_free w :
  allocator_fresh w ->
  next_address (libc w) = NULL ∨ heap w !! next_address (libc w) = None.
Proof.
  intros [_ Hall]. destruct (libc w) as [| v rest]; simpl; [by left |].
  apply Forall_cons in Hall as [Hv _].
  destruct (decide (v = NULL)); [by left | right; auto].
Qed.

(** Answering a prompt keeps the callback's state, with slot [i] filled. *)
Lemma answered_state password a p messages ms rs w i m :
  conv_state a p messages ms rs w -> ms !! i = Some m -> is_prompt m = true ->
  (i < length rs)%nat ->
  conv_state a p messages ms (<[i := answer (next_address (libc w))]> rs)
             (answered password a i rs w).
Proof.
  intros Hs Hm Hstyle Hi.
  pose proof (my_conv_step_prompt password _ _ _ _ _ _ _ _ Hs Hm Hstyle Hi) as Hrun.
  destruct (tidy_my_conv_step _ _ _ _ _ _ _ Hrun (cs_fresh _ _ _ _ _ _ Hs)) as [Hf Hk].
  destruct Hs as [[Hp Hptr] [Ha Harr] Hread Hfresh].
  assert (a ≠ p) as Hap by (intros ->; congruence).
  split; [| | by eapply read_messages_kept | done].
  - split; [done |]. unfold answered; simpl.
    rewrite lookup_insert_ne by done.
    destruct (next_address_free w Hfresh) as [-> | Hfree].
    + by rewrite decide_True.
    + case_decide; [done |]. rewrite lookup_insert_ne; [done | congruence].
  - split; [done |]. unfold answered; simpl. by rewrite lookup_insert_eq.
Qed.

(** An answered prompt with a non-NULL text has a copy of the password's C
    string at that address. *)
Lemma answered_copy password a i rs w :
  allocator_fresh w -> heap w !! a = Some (RespArray rs) ->
  next_address (libc w) ≠ NULL ->
  heap (answered password a i rs w) !! next_address (libc w) =
    Some (CStr (c_str (encode_utf8 password))).
Proof.
  intros Hfresh Harr Hv. unfold answered; simpl.
  destruct (next_address_free w Hfresh) as [? | Hfree]; [done |].
  rewrite lookup_insert_ne by congruence.
  rewrite decide_False by done. by rewrite lookup_insert_eq.
Qed.

(** ** The loop *)

(** From index [i0] on, with the slots from [i0] still zero, the loop runs to
    completion, fills the slots as [answers] says, calls [strdup] as
    [strdups] says, and every non-NULL text it stored points to a copy. *)
Lemma my_conv_loop password a p messages ms suffix :
  ∀ i0 rs w,
    conv_state a p messages ms rs w ->
    drop i0 ms = suffix ->
    drop i0 rs = replicate (length suffix) zero_PamResponse ->
    ∃ w',
      for_each (seq i0 (length suffix)) (my_conv_step password messages p) w = (Ok tt, w') ∧
      conv_state a p messages ms (take i0 rs ++ answers suffix (libc w)) w' ∧
      trace w' = trace w ++ strdups (encode_utf8 password) suffix (libc w) ∧
      Forall (λ r, resp r ≠ NULL ->
                   heap w' !! resp r = Some (CStr (c_str (encode_utf8 password))))
             (answers suffix (libc w)).
Proof.
  induction suffix as [| m suffix IH]; intros i0 rs w Hs Hms Hrs; simpl.
  - exists w. split; [done |]. rewrite !app_nil_r.
    simpl in Hrs. apply drop_nil_inv in Hrs.
    split; [| done]. by rewrite take_ge.
  - assert (ms !! i0 = Some m) as Hm.
    { rewrite <- (Nat.add_0_r i0), <- lookup_drop, Hms. done. }
    assert (drop (S i0) ms = suffix) as Hms'.
    { rewrite <- (drop_drop ms 1 i0) || rewrite <- Nat.add_1_r, <- drop_drop.
      all: by rewrite Hms. }
    assert (rs !! i0 = Some zero_PamResponse) as Hr.
    { rewrite <- (Nat.add_0_r i0), <- lookup_drop, Hrs. done. }
    assert (i0 < length rs)%nat as Hi by (by eapply lookup_lt_Some).
    assert (drop (S i0) rs = replicate (length suffix) zero_PamResponse) as Hrs'.
    { rewrite <- Nat.add_1_r, <- drop_drop, Hrs. done. }
    unfold bind at 1.
    destruct (is_prompt m) eqn:Hstyle.
    + rewrite (my_conv_step_prompt _ _ _ _ _ _ _ _ _ Hs Hm Hstyle Hi).
      pose proof (answered_state password _ _ _ _ _ _ _ _ Hs Hm Hstyle Hi) as Hs1.
      destruct (IH (S i0) _ _ Hs1 Hms') as (w' & Hrun & Hs' & Htr & Hcopies).
      { by rewrite drop_insert_lt by lia. }
      exists w'. split; [done |]. simpl in *.
      split; [| split].
      * rewrite (take_S_r _ _ (answer (next_address (libc w)))) in Hs'
          by (by rewrite list_lookup_insert_eq).
        rewrite take_insert_ge in Hs' by lia.
        by rewrite <- app_assoc in Hs'.
      * rewrite Htr. by rewrite <- app_assoc.
      * constructor; [| done]. simpl. intros Hv.
        destruct (tidy_for_each _ _ (tidy_my_conv_step password messages p)
                    _ _ _ Hrun (cs_fresh _ _ _ _ _ _ Hs1)) as [_ Hk].
        apply Hk; [| done].
        apply answered_copy; [apply Hs | apply Hs | done].
    + rewrite (my_conv_step_other _ _ _ _ _ _ _ _ _ Hs Hm Hstyle).
      destruct (IH (S i0) _ _ Hs Hms' Hrs') as (w' & Hrun & Hs' & Htr & Hcopies).
      exists w'. split; [done |].
      split; [| split; [done |]].
      * rewrite (take_S_r _ _ _ Hr) in Hs'. by rewrite <- app_assoc in Hs'.
      * constructor; [done | done].
Qed.

(** ** The whole callback *)

Lemma c_uint_small n : 0 <= n <= INT_MAX -> c_uint n = n.
Proof. unfold c_uint, INT_MAX. intros H. apply Z.mod_small. lia. Qed.

(** The callback when [calloc] delivers the array at [a]. *)
Lemma my_conv_allocated password n messages p app ms w a rest :
  callback_entry n messages p ms w ->
  libc w = a :: rest -> a ≠ NULL ->
  ∃ w',
    my_conv password n messages p app w = (Ok 0, w') ∧
    heap w' !! p = Some (RespPtr a) ∧
    heap w' !! a = Some (RespArray (answers ms rest)) ∧
    trace w' = trace w ++ CallCalloc n sizeof_PamResponse a
                            :: strdups (encode_utf8 password) ms rest ∧
    Forall (λ r, resp r ≠ NULL ->
                 heap w' !! resp r = Some (CStr (c_str (encode_utf8 password))))
           (answers ms rest).
Proof.
  intros [Hn Hmax Hread [Hp [old Hold]] Hfresh] Hl Ha.
  assert (c_uint n = n) as Hcn by (apply c_uint_small; lia).
  assert (Z.to_nat n = length ms) as Hlen by lia.
  assert (heap w !! a = None) as Hfree.
  { destruct Hfresh as [_ Hall]. rewrite Hl in Hall.
    apply Forall_cons in Hall as [Hfree _]. auto. }
  assert (a ≠ p) as Hap by (intros ->; congruence).
  set (w1 := {| heap := <[a := RespArray (replicate (length ms) zero_PamResponse)]> (heap w);
                libc := rest;
                trace := trace w ++ [CallCalloc n sizeof_PamResponse a] |}).
  assert (CALLOC n sizeof_PamResponse w = (Ok a, w1)) as Hcalloc.
  { unfold CALLOC, allocate. rewrite Hl, decide_False by done.
    rewrite Hcn, Hlen. done. }
  assert (setitem0 p a w1 = (Ok tt, put_block p (RespPtr a) w1)) as Hset.
  { unfold setitem0. rewrite decide_False by done. simpl.
    rewrite lookup_insert_ne by done. by rewrite Hold. }
  destruct (tidy_allocate _ _ _ _ _ Hcalloc Hfresh) as [Hfresh1 Hk1].
  destruct (tidy_setitem0 _ _ _ _ _ Hset Hfresh1) as [Hfresh2 Hk2].
  assert (conv_state a p messages ms (replicate (length ms) zero_PamResponse)
            (put_block p (RespPtr a) w1)) as Hs.
  { split; [| | | done].
    - split; [done |]. simpl. by rewrite lookup_insert_eq.
    - split; [done |]. simpl. rewrite lookup_insert_ne by done.
      by rewrite lookup_insert_eq.
    - eapply read_messages_kept; [| exact Hread].
      by eapply native_data_kept_trans. }
  destruct (my_conv_loop password _ _ _ _ ms 0%nat _ _ Hs eq_refl eq_refl)
    as (w' & Hrun & [[_ Hptr'] [_ Harr'] _ _] & Htr & Hcopies).
  exists w'. simpl in *.
  split; [| split; [done | split; [done | split; [| done]]]].
  - unfold my_conv. unfold bind at 1. rewrite Hcalloc.
    unfold bind at 1. rewrite Hset.
    unfold bind at 1. unfold range. rewrite Hlen, Hrun. done.
  - rewrite Htr. by rewrite <- app_assoc.
Qed.

(** ** The reference functions [answers] and [strdups] *)

Lemma answers_length ms l : length (answers ms l) = length ms.
Proof.
  revert l. induction ms as [| m ms IH]; intros l; simpl; [done |].
  destruct (is_prompt m); simpl; by rewrite IH.
Qed.

(** A slot for a message that is not a password prompt is zero. *)
Lemma answers_lookup_other ms l i m :
  ms !! i = Some m -> is_prompt m = false ->
  answers ms l !! i = Some zero_PamResponse.
Proof.
  revert l i. induction ms as [| m0 ms IH]; intros l [| i] Hm Hstyle; simpl in *;
    try done.
  - injection Hm as ->. by rewrite Hstyle.
  - destruct (is_prompt m0); simpl; by apply IH.
Qed.

(** The slot of a password prompt holds what the [strdup] call made for it
    returned: the allocator's answer number [k], where [k] prompts precede. *)
Lemma answers_lookup_prompt ms l i m :
  ms !! i = Some m -> is_prompt m = true ->
  answers ms l !! i =
    Some (answer (next_address (drop (length (filter is_prompt (take i ms))) l))).
Proof.
  revert l i. induction ms as [| m0 ms IH]; intros l [| i] Hm Hstyle; simpl in *;
    try done.
  - injection Hm as ->. by rewrite Hstyle.
  - rewrite filter_cons. destruct (is_prompt m0) eqn:H0; simpl.
    + rewrite (IH _ _ Hm Hstyle). destruct l; simpl; [by rewrite drop_nil | done].
    + by rewrite (IH _ _ Hm Hstyle).
Qed.

(** [strdup] is called once for each password prompt, in order. *)
Lemma strdups_length s ms l :
  length (strdups s ms l) = length (filter is_prompt ms).
Proof.
  revert l. induction ms as [| m ms IH]; intros l; simpl; [done |].
  rewrite filter_cons. destruct (is_prompt m); simpl; by rewrite IH.
Qed.

Lemma strdups_lookup s ms l k :
  (k < length (filter is_prompt ms))%nat ->
  strdups s ms l !! k = Some (CallStrdup s (next_address (drop k l))).
Proof.
  revert l k. induction ms as [| m ms IH]; intros l k Hk; simpl in *; [lia |].
  rewrite filter_cons in Hk. destruct (is_prompt m); simpl in *.
  - destruct k as [| k]; simpl; [done |].
    rewrite IH by lia. destruct l; simpl; [by rewrite drop_nil | done].
  - by apply IH.
Qed.

Lemma strdups_all_strdup s ms l :
  filter is_strdup (strdups s ms l) = strdups s ms l ∧
  filter is_calloc (strdups s ms l) = [].
Proof.
  revert l. induction ms as [| m ms IH]; intros l; simpl; [done |].
  destruct (is_prompt m); [| apply IH].
  destruct (IH (tail l)) as [IH1 IH2].
  rewrite filter_cons_True by done. rewrite filter_cons_False by (by intros ?).
  by rewrite IH1, IH2.
Qed.

(** A non-NULL text in a slot is one of the allocator's answers. *)
Lemma answers_text_allocated ms l r :
  r ∈ answers ms l -> resp r ≠ NULL -> resp r ∈ l.
Proof.
  revert l. induction ms as [| m ms IH]; intros l Hr Hv; simpl in *.
  - by apply elem_of_nil in Hr.
  - destruct (is_prompt m).
    + apply elem_of_cons in Hr as [-> | Hr].
      * destruct l as [| v l]; simpl in *; [done | by left].
      * specialize (IH _ Hr Hv). destruct l as [| v l]; simpl in *; [done | by right].
    + apply elem_of_cons in Hr as [-> | Hr]; [done | by apply IH].
Qed.




(** ** The callback when [calloc] returns NULL *)

(** A call to [strdup]: it returns the allocator's next answer, is logged,
    and leaves every block in use where it is. *)
Lemma strdup_run s w :
  allocator_fresh w ->
  ∃ w1,
    STRDUP s w = (Ok (next_address (libc w)), w1) ∧
    trace w1 = trace w ++ [CallStrdup s (next_address (libc w))] ∧
    (∀ x b, heap w !! x = Some b -> heap w1 !! x = Some b).
Proof.
  intros [_ Hall]. unfold STRDUP, allocate.
  destruct (libc w) as [| v rest]; simpl.
  - eexists. split; [done |]. by split.
  - destruct (decide (v = NULL)) as [-> | Hv].
    + eexists. split; [done |]. by split.
    + eexists. split; [done |]. split; [done |]. simpl.
      apply Forall_cons in Hall as [Hfree _].
      intros x b Hx. rewrite lookup_insert_ne; [done |].
      intros ->. rewrite (Hfree Hv) in Hx. done.
Qed.

(** With a NULL array the loop passes over the other messages and raises at
    the first password prompt, right after its [strdup]. *)
Lemma my_conv_loop_null password p messages ms suffix :
  p ≠ NULL ->
  ∀ i0 w,
    heap w !! p = Some (RespPtr NULL) ->
    read_messages (heap w) messages = Some ms ->
    allocator_fresh w ->
    drop i0 ms = suffix ->
    ∃ w',
      for_each (seq i0 (length suffix)) (my_conv_step password messages p) w =
        (if existsb is_prompt suffix
         then Raise ValueError_NULL_pointer_access else Ok tt, w') ∧
      heap w' !! p = Some (RespPtr NULL) ∧
      trace w' = trace w ++
        (if existsb is_prompt suffix
         then [CallStrdup (encode_utf8 password) (next_address (libc w))] else []).
Proof.
  intros Hp. induction suffix as [| m suffix IH]; intros i0 w Hptr Hread Hfresh Hms;
    simpl.
  - exists w. by rewrite app_nil_r.
  - assert (ms !! i0 = Some m) as Hm.
    { rewrite <- (Nat.add_0_r i0), <- lookup_drop, Hms. done. }
    assert (drop (S i0) ms = suffix) as Hms'.
    { rewrite <- Nat.add_1_r, <- drop_drop, Hms. done. }
    unfold bind at 1. unfold my_conv_step at 1. unfold bind at 1.
    rewrite (message_at_read _ _ _ _ _ Hread Hm).
    destruct (is_prompt m) eqn:Hstyle; simpl.
    + apply bool_decide_eq_true in Hstyle. rewrite decide_True by done.
      destruct (strdup_run (encode_utf8 password) w Hfresh) as (w1 & Hrun & Htr & Hk).
      unfold bind at 1. rewrite Hrun.
      unfold bind at 1. unfold update_response at 1.
      rewrite decide_False by done. rewrite (Hk _ _ Hptr).
      rewrite decide_True by done.
      exists w1. split; [done |]. split; [by apply Hk | done].
    + apply bool_decide_eq_false in Hstyle. rewrite decide_False by done.
      unfold ret at 1.
      apply (IH (S i0) w Hptr Hread Hfresh Hms').
Qed.

(** The callback when [calloc] returns NULL: NULL goes to the out-parameter;
    the call completes with 0 when no message is a password prompt and
    raises at the first prompt otherwise. *)
Lemma my_conv_unallocated password n messages p app ms w :
  callback_entry n messages p ms w ->
  next_address (libc w) = NULL ->
  ∃ w',
    my_conv password n messages p app w =
      (if existsb is_prompt ms then Raise ValueError_NULL_pointer_access else Ok 0, w') ∧
    heap w' !! p = Some (RespPtr NULL) ∧
    trace w' = trace w ++ CallCalloc n sizeof_PamResponse NULL ::
      (if existsb is_prompt ms
       then [CallStrdup (encode_utf8 password) (next_address (tail (libc w)))] else []).
Proof.
  intros [Hn Hmax Hread [Hp [old Hold]] Hfresh] Hnull.
  assert (c_uint n = n) as Hcn by (apply c_uint_small; lia).
  assert (Z.to_nat n = length ms) as Hlen by lia.
  set (w1 := {| heap := heap w; libc := tail (libc w);
                trace := trace w ++ [CallCalloc n sizeof_PamResponse NULL] |}).
  assert (CALLOC n sizeof_PamResponse w = (Ok NULL, w1)) as Hcalloc.
  { unfold CALLOC, allocate, w1. rewrite Hcn.
    destruct (libc w) as [| v rest]; simpl in *; [done |].
    by rewrite decide_True. }
  assert (setitem0 p NULL w1 = (Ok tt, put_block p (RespPtr NULL) w1)) as Hset.
  { unfold setitem0. rewrite decide_False by done. simpl. by rewrite Hold. }
  destruct (tidy_allocate _ _ _ _ _ Hcalloc Hfresh) as [Hfresh1 Hk1].
  destruct (tidy_setitem0 _ _ _ _ _ Hset Hfresh1) as [Hfresh2 Hk2].
  destruct (my_conv_loop_null password p messages ms ms Hp 0%nat
              (put_block p (RespPtr NULL) w1)) as (w' & Hrun & Hptr' & Htr); try done.
  { unfold put_block; simpl. by rewrite lookup_insert_eq. }
  { eapply read_messages_kept; [| exact Hread].
    exact (native_data_kept_trans _ _ _ Hk1 Hk2). }
  exists w'. split; [| split; [done |]].
  - unfold my_conv. unfold bind at 1. rewrite Hcalloc.
    unfold bind at 1. rewrite Hset.
    unfold bind at 1. unfold range. rewrite Hlen, Hrun.
    by destruct (existsb is_prompt ms).
  - rewrite Htr. simpl. by rewrite <- app_assoc.
Qed.

(** * The claims about the callback *)

Lemma is_prompt_true m : is_prompt m = true ↔ msg_style m = PAM_PROMPT_ECHO_OFF.
Proof. apply bool_decide_eq_true. Qed.

Lemma is_prompt_false m : is_prompt m = false ↔ msg_style m ≠ PAM_PROMPT_ECHO_OFF.
Proof. apply bool_decide_eq_false. Qed.

Lemma next_address_cons l : next_address l ≠ NULL -> l = next_address l :: tail l.
Proof. by destruct l. Qed.

(** Fewer prompts precede a prompt than there are prompts. *)
Lemma prompts_before_lt ms i m :
  ms !! i = Some m -> is_prompt m = true ->
  (length (filter is_prompt (take i ms)) < length (filter is_prompt ms))%nat.
Proof.
  intros Hm Hstyle. rewrite <- (take_drop_middle ms i m Hm) at 2.
  rewrite filter_app, filter_cons_True by (by rewrite Hstyle).
  rewrite length_app. simpl. lia.
Qed.

(** A password without a NUL byte is its own C string. *)
Lemma c_str_no_nul bs : x00 ∉ bs -> c_str bs = bs.
Proof.
  induction bs as [| b bs IH]; intros Hnot; simpl; [done |].
  apply not_elem_of_cons in Hnot as [Hb Hbs].
  destruct (Byte.eqb b x00) eqn:Heq.
  - apply Byte.byte_dec_bl in Heq. congruence.
  - by rewrite IH.
Qed.

(** What [read_responses] sees after a callback that got its array. *)
Lemma read_responses_allocated h p a rs :
  a ≠ NULL -> h !! p = Some (RespPtr a) -> h !! a = Some (RespArray rs) ->
  read_responses h p = Some rs.
Proof.
  intros Ha Hp Harr. unfold read_responses. by rewrite Hp, decide_False, Harr.
Qed.

(** The addresses a fresh allocator is about to return are not in use. *)
Lemma fresh_not_in_use w v :
  allocator_fresh w -> v ∈ libc w -> v ≠ NULL -> heap w !! v = None.
Proof.
  intros [_ Hall] Hin Hv. rewrite Forall_forall in Hall. by apply Hall.
Qed.

(** C5. For a message array of any length [n >= 0], a callback whose
    [calloc] succeeds calls it once, for [n] records of
    [sizeof(PamResponse)] bytes, stores the new address in the
    out-parameter, and leaves there an array of exactly [n] slots, as many
    as there are messages; every slot has return code 0 and is either still
    zero or belongs to a password prompt. *)
Theorem response_array_shape password n messages p app ms w :
  callback_entry n messages p ms w ->
  next_address (libc w) ≠ NULL ->
  ∃ w' a rs calls,
    my_conv password n messages p app w = (Ok 0, w') ∧
    trace w' = trace w ++ calls ∧
    filter is_calloc calls = [CallCalloc n sizeof_PamResponse a] ∧
    a ≠ NULL ∧ heap w !! a = None ∧
    heap w' !! p = Some (RespPtr a) ∧
    heap w' !! a = Some (RespArray rs) ∧
    Z.of_nat (length rs) = n ∧ length rs = length ms ∧
    ∀ i r, rs !! i = Some r ->
      resp_retcode r = 0 ∧
      (r = zero_PamResponse ∨
       ∃ m, ms !! i = Some m ∧ msg_style m = PAM_PROMPT_ECHO_OFF).
Proof.
  intros Hentry Hnext.
  pose proof (next_address_cons _ Hnext) as Hl.
  destruct (my_conv_allocated password n messages p app ms w _ _ Hentry Hl Hnext)
    as (w' & Hrun & Hptr & Harr & Htr & _).
  exists w', (next_address (libc w)), (answers ms (tail (libc w))),
    (CallCalloc n sizeof_PamResponse (next_address (libc w))
       :: strdups (encode_utf8 password) ms (tail (libc w))).
  split; [done |]. split; [exact Htr |].
  split.
  { rewrite filter_cons_True by done.
    by rewrite (proj2 (strdups_all_strdup _ _ _)). }
  split; [done |].
  split.
  { apply fresh_not_in_use; [apply Hentry | | done].
    rewrite Hl at 2. by left. }
  split; [done |]. split; [done |].
  rewrite answers_length.
  split; [symmetry; apply Hentry |]. split; [done |].
  intros i r Hr.
  destruct (lookup_lt_is_Some_2 ms i) as [m Hm].
  { rewrite <- (answers_length ms (tail (libc w))). by eapply lookup_lt_Some. }
  destruct (is_prompt m) eqn:Hstyle.
  - rewrite (answers_lookup_prompt _ _ _ _ Hm Hstyle) in Hr. injection Hr as <-.
    split; [done |]. right. exists m. split; [done | by apply is_prompt_true].
  - rewrite (answers_lookup_other _ _ _ _ Hm Hstyle) in Hr. injection Hr as <-.
    split; [done | by left].
Qed.

(** The three-message call of [Demo] is a well-formed callback invocation
    for any fresh list of allocator answers. *)
Lemma three_entry addresses :
  NoDup (filter (λ a, a ≠ NULL) addresses) ->
  Forall (λ a, a ≠ NULL -> Demo.three_heap !! a = None) addresses ->
  callback_entry 3 100 200 Demo.three_messages (Demo.three_world addresses).
Proof.
  intros Hnd Hall. split.
  - reflexivity.
  - unfold INT_MAX. lia.
  - vm_compute. reflexivity.
  - split; [done |]. eexists. vm_compute. reflexivity.
  - by split.
Qed.

Lemma three_entry_300_310_320 :
  callback_entry 3 100 200 Demo.three_messages (Demo.three_world [300; 310; 320]).
Proof.
  apply three_entry.
  - apply (bool_decide_unpack _). vm_compute. exact I.
  - repeat constructor; intros _; vm_compute; reflexivity.
Qed.

(** C5 at work on three messages, with the allocator answering 300, 310,
    320. *)
Lemma response_array_shape_witness :
  ∃ w' a rs calls,
    my_conv "hunter2" 3 100 200 0 (Demo.three_world [300; 310; 320]) = (Ok 0, w') ∧
    trace w' = trace (Demo.three_world [300; 310; 320]) ++ calls ∧
    filter is_calloc calls = [CallCalloc 3 sizeof_PamResponse a] ∧
    a ≠ NULL ∧ heap (Demo.three_world [300; 310; 320]) !! a = None ∧
    heap w' !! 200 = Some (RespPtr a) ∧
    heap w' !! a = Some (RespArray rs) ∧
    Z.of_nat (length rs) = 3 ∧ length rs = length Demo.three_messages ∧
    ∀ i r, rs !! i = Some r ->
      resp_retcode r = 0 ∧
      (r = zero_PamResponse ∨
       ∃ m, Demo.three_messages !! i = Some m ∧ msg_style m = PAM_PROMPT_ECHO_OFF).
Proof.
  apply (response_array_shape "hunter2" 3 100 200 0 Demo.three_messages
           (Demo.three_world [300; 310; 320])).
  - exact three_entry_300_310_320.
  - vm_compute. discriminate.
Defined.

(** C5 on an empty message array: the array is allocated and empty. *)
Example response_array_empty :
  ∃ w',
    my_conv "hunter2" 0 100 200 0
      {| heap := <[100 := MsgPtrArray []]> (<[200 := RespPtr NULL]> ∅);
         libc := [300]; trace := [] |} = (Ok 0, w') ∧
    read_responses (heap w') 200 = Some [] ∧
    trace w' = [CallCalloc 0 sizeof_PamResponse 300].
Proof. eexists. split; [vm_compute; reflexivity |]. split; vm_compute; reflexivity. Qed.

(** C3. After a callback whose array was allocated, for every index [i]: if
    [messages[i]] has style [PAM_PROMPT_ECHO_OFF], slot [i] holds the pointer
    [v] that a [strdup] of the password bytes returned, with return code 0,
    and a non-NULL [v] is a block that was not in use before and now holds
    the password's C string (all its bytes when none is NUL, see
    [c_str_no_nul]); for every other style the slot is zero. *)
Theorem responses_follow_styles password n messages p app ms w :
  callback_entry n messages p ms w ->
  next_address (libc w) ≠ NULL ->
  ∃ w' rs calls,
    my_conv password n messages p app w = (Ok 0, w') ∧
    trace w' = trace w ++ calls ∧
    read_responses (heap w') p = Some rs ∧
    ∀ i m, ms !! i = Some m ->
      (msg_style m = PAM_PROMPT_ECHO_OFF ->
       ∃ v, rs !! i = Some {| resp := v; resp_retcode := 0 |} ∧
            CallStrdup (encode_utf8 password) v ∈ calls ∧
            (v ≠ NULL ->
             heap w !! v = None ∧
             heap w' !! v = Some (CStr (c_str (encode_utf8 password))))) ∧
      (msg_style m ≠ PAM_PROMPT_ECHO_OFF -> rs !! i = Some zero_PamResponse).
Proof.
  intros Hentry Hnext.
  pose proof (next_address_cons _ Hnext) as Hl.
  destruct (my_conv_allocated password n messages p app ms w _ _ Hentry Hl Hnext)
    as (w' & Hrun & Hptr & Harr & Htr & Hcopies).
  exists w', (answers ms (tail (libc w))),
    (CallCalloc n sizeof_PamResponse (next_address (libc w))
       :: strdups (encode_utf8 password) ms (tail (libc w))).
  split; [done |]. split; [exact Htr |].
  split; [by eapply read_responses_allocated |].
  intros i m Hm. split.
  - intros Hstyle%is_prompt_true.
    pose proof (answers_lookup_prompt _ (tail (libc w)) _ _ Hm Hstyle) as Hslot.
    eexists. split; [exact Hslot |]. split.
    + right. eapply list_elem_of_lookup_2.
      apply strdups_lookup. by eapply prompts_before_lt.
    + intros Hv.
      assert (answer (next_address (drop (length (filter is_prompt (take i ms)))
                (tail (libc w)))) ∈ answers ms (tail (libc w))) as Hin
        by (by eapply list_elem_of_lookup_2).
      split.
      * apply fresh_not_in_use; [apply Hentry | | done].
        rewrite Hl. right. by apply (answers_text_allocated _ _ _ Hin).
      * rewrite Forall_forall in Hcopies. by apply (Hcopies _ Hin).
  - intros Hstyle%is_prompt_false. by apply answers_lookup_other with m.
Qed.

(** C3 at work: a prompt, a text and a prompt, answered with ["hunter2"];
    the allocator answers 300, 310, 320. *)
Lemma responses_follow_styles_witness :
  ∃ w' rs calls,
    my_conv "hunter2" 3 100 200 0 (Demo.three_world [300; 310; 320]) = (Ok 0, w') ∧
    trace w' = trace (Demo.three_world [300; 310; 320]) ++ calls ∧
    read_responses (heap w') 200 = Some rs ∧
    ∀ i m, Demo.three_messages !! i = Some m ->
      (msg_style m = PAM_PROMPT_ECHO_OFF ->
       ∃ v, rs !! i = Some {| resp := v; resp_retcode := 0 |} ∧
            CallStrdup (encode_utf8 "hunter2") v ∈ calls ∧
            (v ≠ NULL ->
             heap (Demo.three_world [300; 310; 320]) !! v = None ∧
             heap w' !! v = Some (CStr (c_str (encode_utf8 "hunter2"))))) ∧
      (msg_style m ≠ PAM_PROMPT_ECHO_OFF -> rs !! i = Some zero_PamResponse).
Proof.
  apply (responses_follow_styles "hunter2" 3 100 200 0 Demo.three_messages
           (Demo.three_world [300; 310; 320])).
  - exact three_entry_300_310_320.
  - vm_compute. discriminate.
Defined.

(** The response array of that call, computed. *)
Example responses_of_three :
  read_responses
    (heap (snd (my_conv "hunter2" 3 100 200 0 (Demo.three_world [300; 310; 320])))) 200
  = Some [ {| resp := 310; resp_retcode := 0 |};
           {| resp := NULL; resp_retcode := 0 |};
           {| resp := 320; resp_retcode := 0 |} ] ∧
  heap (snd (my_conv "hunter2" 3 100 200 0 (Demo.three_world [300; 310; 320]))) !! 310
  = Some (CStr (encode_utf8 "hunter2")).
Proof. split; vm_compute; reflexivity. Qed.

(** C8. Whatever the allocator does, if a response array is reachable through
    the out-parameter after the callback, then the slot of every message
    whose style is not [PAM_PROMPT_ECHO_OFF] ([PAM_TEXT_INFO],
    [PAM_ERROR_MSG], [PAM_PROMPT_ECHO_ON]) is the zero record: its text is
    NULL, so it points to no copy of the password. *)
Theorem no_secret_outside_prompts password n messages p app ms w rs i m r :
  callback_entry n messages p ms w ->
  read_responses (heap (snd (my_conv password n messages p app w))) p = Some rs ->
  ms !! i = Some m ->
  msg_style m ≠ PAM_PROMPT_ECHO_OFF ->
  rs !! i = Some r ->
  r = zero_PamResponse ∧ resp r = NULL.
Proof.
  intros Hentry Hrs Hm Hstyle%is_prompt_false Hr.
  destruct (decide (next_address (libc w) = NULL)) as [Hnull | Hnext].
  - destruct (my_conv_unallocated password n messages p app ms w Hentry Hnull)
      as (w' & Hrun & Hptr & _).
    rewrite Hrun in Hrs. simpl in Hrs.
    unfold read_responses in Hrs. rewrite Hptr in Hrs.
    by rewrite decide_True in Hrs.
  - pose proof (next_address_cons _ Hnext) as Hl.
    destruct (my_conv_allocated password n messages p app ms w _ _ Hentry Hl Hnext)
      as (w' & Hrun & Hptr & Harr & _).
    rewrite Hrun in Hrs. simpl in Hrs.
    rewrite (read_responses_allocated _ _ _ _ Hnext Hptr Harr) in Hrs.
    injection Hrs as <-.
    rewrite (answers_lookup_other _ _ _ _ Hm Hstyle) in Hr. by injection Hr as <-.
Qed.

(** C8 at work: the [PAM_TEXT_INFO] message in the middle of the three. *)
Lemma no_secret_outside_prompts_witness :
  zero_PamResponse = zero_PamResponse ∧ resp zero_PamResponse = NULL.
Proof.
  apply (no_secret_outside_prompts "hunter2" 3 100 200 0 Demo.three_messages
           (Demo.three_world [300; 310; 320])
           [ {| resp := 310; resp_retcode := 0 |}; zero_PamResponse;
             {| resp := 320; resp_retcode := 0 |} ]
           1%nat {| msg_style := PAM_TEXT_INFO; msg := 121 |} zero_PamResponse).
  - exact three_entry_300_310_320.
  - vm_compute. reflexivity.
  - reflexivity.
  - vm_compute. discriminate.
  - reflexivity.
Defined.

(** C9. The callback does not modify the message array.  With an allocator
    that hands out only unused addresses, whatever the outcome of the call
    (completion or exception), the array read back at [messages] is the same
    list of records, style and text pointer alike, and the text each message
    points to is unchanged. *)
Theorem messages_untouched password n messages p app ms w :
  allocator_fresh w ->
  read_messages (heap w) messages = Some ms ->
  read_messages (heap (snd (my_conv password n messages p app w))) messages = Some ms ∧
  ∀ m bs, m ∈ ms -> heap w !! msg m = Some (CStr bs) ->
          heap (snd (my_conv password n messages p app w)) !! msg m = Some (CStr bs).
Proof.
  intros Hfresh Hread.
  destruct (my_conv password n messages p app w) as [r w'] eqn:Hrun. simpl.
  destruct (tidy_my_conv _ _ _ _ _ _ _ _ Hrun Hfresh) as [_ Hk].
  split; [by eapply read_messages_kept |].
  intros m bs _ Htext. by apply Hk.
Qed.

(** C9 at work on the three messages, here with a failing [calloc], where
    the call ends with an exception. *)
Lemma messages_untouched_witness :
  read_messages
    (heap (snd (my_conv "hunter2" 3 100 200 0 (Demo.three_world [0; 310; 320])))) 100
  = Some Demo.three_messages ∧
  ∀ m bs, m ∈ Demo.three_messages ->
    heap (Demo.three_world [0; 310; 320]) !! msg m = Some (CStr bs) ->
    heap (snd (my_conv "hunter2" 3 100 200 0 (Demo.three_world [0; 310; 320]))) !! msg m
    = Some (CStr bs).
Proof.
  apply (messages_untouched "hunter2" 3 100 200 0 Demo.three_messages
           (Demo.three_world [0; 310; 320])).
  - split.
    + apply (bool_decide_unpack _). vm_compute. exact I.
    + repeat constructor; intros _; vm_compute; reflexivity.
  - vm_compute. reflexivity.
Defined.



(** ** Allocation failure *)

(** The three-message call with a failing [strdup], and with a failing
    [calloc]. *)
Lemma three_entry_300_0_320 :
  callback_entry 3 100 200 Demo.three_messages (Demo.three_world [300; 0; 320]).
Proof.
  apply three_entry.
  - apply (bool_decide_unpack _). vm_compute. exact I.
  - repeat constructor; intros _; vm_compute; reflexivity.
Qed.

Lemma three_entry_0_310_320 :
  callback_entry 3 100 200 Demo.three_messages (Demo.three_world [0; 310; 320]).
Proof.
  apply three_entry.
  - apply (bool_decide_unpack _). vm_compute. exact I.
  - repeat constructor; intros _; vm_compute; reflexivity.
Qed.

(** C6, as stated, fails: it is not the case that the callback signals a
    failure whenever a libc call returned NULL.  On the three messages, with
    the first [strdup] returning NULL, the callback completes with 0. *)
Lemma allocation_failure_claim_fails :
  ¬ (∀ password n messages p app ms w,
       callback_entry n messages p ms w ->
       allocation_failed
         (drop (length (trace w)) (trace (snd (my_conv password n messages p app w)))) ->
       signals_failure (fst (my_conv password n messages p app w))).
Proof.
  intros Hclaim.
  apply (Hclaim "hunter2"%string 3 100 200 0 Demo.three_messages
           (Demo.three_world [300; 0; 320])).
  - exact three_entry_300_0_320.
  - exists (CallStrdup (encode_utf8 "hunter2") NULL). split; [| reflexivity].
    vm_compute. right. left.
  - vm_compute. reflexivity.
Qed.

(** C6, amended.  A NULL from [strdup] is not signalled: with the array
    allocated, the callback still completes with 0 and still calls [strdup]
    once per password prompt, and the slot of a prompt whose [strdup]
    returned NULL is left with a NULL text and return code 0. *)
Theorem failed_copy_unsignalled password n messages p app ms w :
  callback_entry n messages p ms w ->
  next_address (libc w) ≠ NULL ->
  ∃ w' rs calls,
    my_conv password n messages p app w = (Ok 0, w') ∧
    trace w' = trace w ++ calls ∧
    read_responses (heap w') p = Some rs ∧
    length (filter is_strdup calls) = length (filter is_prompt ms) ∧
    ∀ i m, ms !! i = Some m -> msg_style m = PAM_PROMPT_ECHO_OFF ->
      filter is_strdup calls !! length (filter is_prompt (take i ms)) =
        Some (CallStrdup (encode_utf8 password) NULL) ->
      rs !! i = Some {| resp := NULL; resp_retcode := 0 |}.
Proof.
  intros Hentry Hnext.
  pose proof (next_address_cons _ Hnext) as Hl.
  destruct (my_conv_allocated password n messages p app ms w _ _ Hentry Hl Hnext)
    as (w' & Hrun & Hptr & Harr & Htr & _).
  exists w', (answers ms (tail (libc w))),
    (CallCalloc n sizeof_PamResponse (next_address (libc w))
       :: strdups (encode_utf8 password) ms (tail (libc w))).
  split; [done |]. split; [exact Htr |].
  split; [by eapply read_responses_allocated |].
  rewrite filter_cons_False by (by intros ?).
  rewrite (proj1 (strdups_all_strdup _ _ _)).
  split; [apply strdups_length |].
  intros i m Hm Hstyle%is_prompt_true Hcall.
  rewrite (strdups_lookup _ _ _ _ (prompts_before_lt _ _ _ Hm Hstyle)) in Hcall.
  injection Hcall as Hv.
  rewrite (answers_lookup_prompt _ _ _ _ Hm Hstyle). by rewrite Hv.
Qed.

(** The amended C6 at work: the first [strdup] returns NULL, the second one
    320. *)
Lemma failed_copy_unsignalled_witness :
  ∃ w' rs calls,
    my_conv "hunter2" 3 100 200 0 (Demo.three_world [300; 0; 320]) = (Ok 0, w') ∧
    trace w' = trace (Demo.three_world [300; 0; 320]) ++ calls ∧
    read_responses (heap w') 200 = Some rs ∧
    length (filter is_strdup calls) = length (filter is_prompt Demo.three_messages) ∧
    ∀ i m, Demo.three_messages !! i = Some m -> msg_style m = PAM_PROMPT_ECHO_OFF ->
      filter is_strdup calls !! length (filter is_prompt (take i Demo.three_messages)) =
        Some (CallStrdup (encode_utf8 "hunter2") NULL) ->
      rs !! i = Some {| resp := NULL; resp_retcode := 0 |}.
Proof.
  apply (failed_copy_unsignalled "hunter2" 3 100 200 0 Demo.three_messages
           (Demo.three_world [300; 0; 320])).
  - exact three_entry_300_0_320.
  - vm_compute. discriminate.
Defined.

(** That run, computed: NULL in the first slot, 320 in the third. *)
Example failed_copy_run :
  fst (my_conv "hunter2" 3 100 200 0 (Demo.three_world [300; 0; 320])) = Ok 0 ∧
  read_responses
    (heap (snd (my_conv "hunter2" 3 100 200 0 (Demo.three_world [300; 0; 320])))) 200
  = Some [ {| resp := NULL; resp_retcode := 0 |};
           {| resp := NULL; resp_retcode := 0 |};
           {| resp := 320; resp_retcode := 0 |} ].
Proof. split; vm_compute; reflexivity. Qed.

(** That run, computed: one [calloc], one [strdup], then the exception. *)
Example null_array_run :
  fst (my_conv "hunter2" 3 100 200 0 (Demo.three_world [0; 310; 320]))
  = Raise ValueError_NULL_pointer_access ∧
  trace (snd (my_conv "hunter2" 3 100 200 0 (Demo.three_world [0; 310; 320])))
  = [CallCalloc 3 16 NULL; CallStrdup (encode_utf8 "hunter2") 310].
Proof. split; vm_compute; reflexivity. Qed.

(** ** The callback on Python strings in general *)

Lemma for_each_ext {A} (l : list A) (f g : A -> M unit) :
  (∀ x w, f x w = g x w) -> ∀ w, for_each l f w = for_each l g w.
Proof.
  intros Hfg. induction l as [| x l IH]; intros w; simpl; [done |].
  unfold bind. rewrite Hfg. destruct (g x w) as [[[] | e |] w1]; [apply IH | done | done].
Qed.

(** For a password that encodes, [Py.my_conv] is [my_conv] on the text with
    those bytes, so what is proved of [my_conv] holds of it. *)
Lemma my_conv_encoded password bs n messages p app w :
  str_encode_utf8 password = Some bs ->
  Py.my_conv password n messages p app w =
  my_conv (string_of_list_byte bs) n messages p app w.
Proof.
  intros Henc. unfold Py.my_conv, my_conv, bind.
  destruct (CALLOC n sizeof_PamResponse w) as [[a | e |] w1]; [| done | done].
  destruct (setitem0 p a w1) as [[[] | e |] w2]; [| done | done].
  rewrite (for_each_ext _ (Py.my_conv_step password messages p)
             (my_conv_step (string_of_list_byte bs) messages p)); [done |].
  intros i w'. unfold Py.my_conv_step, my_conv_step, bind.
  destruct (message_at messages i w') as [[m | e |] w3]; [| done | done].
  destruct (decide (msg_style m = PAM_PROMPT_ECHO_OFF)); [| done].
  unfold Py.encode. rewrite Henc.
  unfold encode_utf8. by rewrite list_byte_of_string_of_list_byte.
Qed.

(** The encoding of an ASCII text, a Latin-1 letter, the euro sign and an
    emoji. *)
Example str_encode_utf8_samples :
  str_encode_utf8 (ascii_str "hunter2") = Some (encode_utf8 "hunter2") ∧
  str_encode_utf8 [0xE9%N] = Some [xc3; xa9] ∧
  str_encode_utf8 [0x20AC%N] = Some [xe2; x82; xac] ∧
  str_encode_utf8 [0x1F600%N] = Some [xf0; x9f; x98; x80] ∧
  str_encode_utf8 lone_surrogate = None.
Proof. repeat split; vm_compute; reflexivity. Qed.

(** C7.  The callback does not return 0 on every call.  On the three
    messages (a prompt, a text, a prompt) with the password [hunter2] and
    [calloc] returning NULL, NULL goes to the out-parameter, the loop
    reaches the first password prompt, copies the password, and then
    [p_response.contents[0]] indexes the NULL array: [ValueError] leaves the
    function before [return 0], and the copy at 310 is referenced from
    nowhere. *)
Theorem handler_raises_on_null_array :
  fst (Py.my_conv (ascii_str "hunter2") 3 100 200 0 (Demo.three_world [0; 310; 320]))
  = Raise ValueError_NULL_pointer_access ∧
  trace (snd (Py.my_conv (ascii_str "hunter2") 3 100 200 0
                (Demo.three_world [0; 310; 320])))
  = [CallCalloc 3 16 NULL; CallStrdup (encode_utf8 "hunter2") 310] ∧
  heap (snd (Py.my_conv (ascii_str "hunter2") 3 100 200 0
               (Demo.three_world [0; 310; 320]))) !! 200
  = Some (RespPtr NULL).
Proof. repeat split; vm_compute; reflexivity. Qed.

(** The same defect on any well-formed call: whenever [calloc] returns NULL
    and some message is a password prompt, the callback raises. *)
Lemma handler_raises_without_array password bs n messages p app ms w :
  str_encode_utf8 password = Some bs ->
  callback_entry n messages p ms w ->
  next_address (libc w) = NULL ->
  existsb is_prompt ms = true ->
  fst (Py.my_conv password n messages p app w) = Raise ValueError_NULL_pointer_access.
Proof.
  intros Henc Hentry Hnull Hprompt. rewrite (my_conv_encoded _ _ _ _ _ _ _ Henc).
  destruct (my_conv_unallocated (string_of_list_byte bs) n messages p app ms w
              Hentry Hnull) as (w' & Hrun & _).
  by rewrite Hrun, Hprompt.
Qed.

(** On the sibling paths the callback does return 0: with a password that
    encodes, whenever the array was allocated, whatever [strdup] returns,
    and also without the array when no message is a password prompt. *)
Lemma handler_returns_zero_otherwise password bs n messages p app ms w :
  str_encode_utf8 password = Some bs ->
  callback_entry n messages p ms w ->
  next_address (libc w) ≠ NULL ∨ existsb is_prompt ms = false ->
  fst (Py.my_conv password n messages p app w) = Ok 0.
Proof.
  intros Henc Hentry Hcase. rewrite (my_conv_encoded _ _ _ _ _ _ _ Henc).
  destruct (decide (next_address (libc w) = NULL)) as [Hnull | Hnext].
  - destruct Hcase as [? | Hnone]; [done |].
    destruct (my_conv_unallocated (string_of_list_byte bs) n messages p app ms w
                Hentry Hnull) as (w' & Hrun & _).
    rewrite Hrun, Hnone. done.
  - pose proof (next_address_cons _ Hnext) as Hl.
    destruct (my_conv_allocated (string_of_list_byte bs) n messages p app ms w _ _
                Hentry Hl Hnext) as (w' & Hrun & _).
    by rewrite Hrun.
Qed.

(** A password that does not encode: [password.encode] raises at the first
    password prompt, after the array was allocated and stored, and before
    any call to [strdup]. *)
Example handler_raises_on_unencodable_password :
  fst (Py.my_conv lone_surrogate 3 100 200 0 (Demo.three_world [300; 310; 320]))
  = Raise UnicodeEncodeError ∧
  trace (snd (Py.my_conv lone_surrogate 3 100 200 0 (Demo.three_world [300; 310; 320])))
  = [CallCalloc 3 16 300] ∧
  read_responses
    (heap (snd (Py.my_conv lone_surrogate 3 100 200 0
                  (Demo.three_world [300; 310; 320])))) 200
  = Some [zero_PamResponse; zero_PamResponse; zero_PamResponse].
Proof. repeat split; vm_compute; reflexivity. Qed.

(** ** The session on Python strings in general *)

(** C4, as stated, fails: it is not the case that [pam_end] is called
    exactly once on every run of [authenticate].  With a user name that is
    a lone surrogate, [username.encode] raises before [pam_start], and the
    run makes no call at all. *)
Lemma end_once_claim_fails :
  ¬ (∀ username password service (s0 : Demo.Native) log,
       ∃ calls,
         snd (snd (Py.authenticate Demo.pam_start Demo.pam_authenticate Demo.pam_end
                     username password service (s0, log))) = log ++ calls ∧
         length (filter is_end calls) = 1%nat).
Proof.
  intros Hclaim.
  destruct (Hclaim lone_surrogate (ascii_str "hunter2") (ascii_str "login")
              (Demo.machine 0 0 [300; 310]) []) as (calls & Hlog & Hone).
  vm_compute in Hlog. subst calls. discriminate.
Qed.

(** That run, computed: the exception, the machine untouched, no call. *)
Example lone_surrogate_login :
  Py.authenticate Demo.pam_start Demo.pam_authenticate Demo.pam_end
    lone_surrogate (ascii_str "hunter2") (ascii_str "login")
    (Demo.machine 0 0 [300; 310], [])
  = (Raise UnicodeEncodeError, (Demo.machine 0 0 [300; 310], [])).
Proof. reflexivity. Qed.

(** The amended C4 on a run that does start: the right password on a
    healthy machine. *)
Example encodable_login :
  fst (Py.authenticate Demo.pam_start Demo.pam_authenticate Demo.pam_end
         (ascii_str "alice") (ascii_str "hunter2") (ascii_str "login")
         (Demo.machine 0 0 [300; 310], [])) = Ok true ∧
  map (λ c, (is_start c, is_authenticate c, is_end c))
    (snd (snd (Py.authenticate Demo.pam_start Demo.pam_authenticate Demo.pam_end
                 (ascii_str "alice") (ascii_str "hunter2") (ascii_str "login")
                 (Demo.machine 0 0 [300; 310], []))))
  = [(true, false, false); (false, true, false); (false, false, true)].
Proof. split; vm_compute; reflexivity. Qed.

(** * Properties of the library loading *)

Section LoadingFacts.

Context `{Runtime}.

(** [load_library] after its call to [find_library]: the loop runs over
    [candidates], and the function ends as the loop tells. *)
Lemma load_library_unfold nickname search_names s0 log guess s1 :
  find_library nickname s0 = (guess, s1) ->
  load_library nickname search_names (s0, log) =
    (match fst (load_library_loop (candidates guess search_names) None
                  (s1, log ++ [(CallFindLibrary nickname, true)])) with
     | Raises e => Raises e
     | Returns (Returned v) => Returns v
     | Returns (Completed library) =>
         match library with
         | None =>
             Raises (AssertionError
                       ("Failed to load '" ++ nickname ++ "' library.")%string)
         | Some _ => Returns None
         end
     end, candidates guess search_names,
     snd (load_library_loop (candidates guess search_names) None
            (s1, log ++ [(CallFindLibrary nickname, true)]))).
Proof.
  intros Hfind. unfold load_library, call_find_library. rewrite Hfind.
  unfold candidates.
  destruct guess, search_names; cbn [from_option id];
    match goal with |- context [load_library_loop ?l None ?st] =>
      by destruct (load_library_loop l None st) end.
Qed.

(** The loop passes over the names [CDLL] refuses, one call each. *)
Lemma load_library_loop_refused tried rest :
  ∀ s s' log,
    refused tried s s' ->
    load_library_loop (tried ++ rest) None (s, log) =
    load_library_loop rest None (s', log ++ map (λ n, (CallCDLL n, false)) tried).
Proof.
  induction tried as [| name tried IH]; intros s s' log Href; simpl in *.
  - subst. by rewrite app_nil_r.
  - destruct Href as (s1 & Hcall & Href).
    unfold call_CDLL, logged. rewrite Hcall. simpl.
    rewrite (IH _ _ _ Href). by rewrite <- app_assoc.
Qed.

(** Every outcome of the loop: its calls are [CDLL] calls on a prefix of the
    names, all refused but possibly the last; it never completes with a
    library in hand, and what it returns is what the last call loaded. *)
Lemma load_library_loop_calls names :
  ∀ s log r s' log',
    load_library_loop names None (s, log) = (r, (s', log')) ->
    ∃ k ok,
      log' = log ++ map (λ n, (CallCDLL n, false)) (take k names)
                 ++ from_option (λ n, [(CallCDLL n, ok)]) [] (names !! k) ∧
      match r with
      | Returns (Completed library) => library = None ∧ names !! k = None
      | Returns (Returned v) =>
          ∃ lib name s1, v = Some lib ∧ names !! k = Some name ∧ ok = true ∧
                         CDLL name s1 = (Returns lib, s')
      | Raises e =>
          e ≠ OSError ∧ ok = false ∧
          ∃ name s1, names !! k = Some name ∧ CDLL name s1 = (Raises e, s')
      end.
Proof.
  induction names as [| name names IH]; intros s log r s' log' Hrun; simpl in Hrun.
  - injection Hrun as <- <- <-. exists 0%nat, true. simpl.
    by rewrite app_nil_r.
  - unfold call_CDLL, logged in Hrun.
    destruct (CDLL name s) as [[lib | e] s1] eqn:Hcall; simpl in Hrun.
    + injection Hrun as <- <- <-. exists 0%nat, true. simpl.
      split; [done |]. by exists lib, name, s.
    + destruct e as [| key | message | n];
        [| injection Hrun as <- <- <-; exists 0%nat, false; simpl;
           (split; [done |]); (split; [done |]); (split; [done |]);
           by exists name, s ..].
      apply IH in Hrun as (k & ok & -> & Hr).
      exists (S k), ok. simpl. split; [by rewrite <- app_assoc |]. done.
Qed.

(** X1. [load_library] returns the first candidate that loads: with the
    guess of [find_library] in front of the given names, if [CDLL] refuses
    the names before [name] with [OSError] and loads [name], the result is
    that library; [CDLL] was called once on each name up to [name], in
    order, and on none after it. *)
Theorem load_library_first_loadable nickname search_names s0 log guess s1
    tried name rest s2 lib s3 :
  find_library nickname s0 = (guess, s1) ->
  candidates guess search_names = tried ++ name :: rest ->
  refused tried s1 s2 ->
  CDLL name s2 = (Returns lib, s3) ->
  load_library nickname search_names (s0, log) =
    ((Returns (Some lib), tried ++ name :: rest),
     (s3, log ++ (CallFindLibrary nickname, true)
              :: map (λ n, (CallCDLL n, false)) tried ++ [(CallCDLL name, true)])).
Proof.
  intros Hfind Hnames Href Hcall.
  rewrite (load_library_unfold _ _ _ _ _ _ Hfind), Hnames.
  rewrite (load_library_loop_refused _ _ _ _ _ Href). simpl.
  unfold call_CDLL, logged. rewrite Hcall. simpl.
  by rewrite <- !app_assoc.
Qed.

(** X2. When [CDLL] refuses every candidate with [OSError], and also when
    there is no candidate at all, [load_library] raises
    [AssertionError("Failed to load '<nickname>' library.")], after one call
    of [CDLL] on each candidate in order. *)
Theorem load_library_none_loadable nickname search_names s0 log guess s1 s2 :
  find_library nickname s0 = (guess, s1) ->
  refused (candidates guess search_names) s1 s2 ->
  load_library nickname search_names (s0, log) =
    ((Raises (AssertionError ("Failed to load '" ++ nickname ++ "' library.")%string),
      candidates guess search_names),
     (s2, log ++ (CallFindLibrary nickname, true)
              :: map (λ n, (CallCDLL n, false)) (candidates guess search_names))).
Proof.
  intros Hfind Href.
  rewrite (load_library_unfold _ _ _ _ _ _ Hfind).
  rewrite <- (app_nil_r (candidates guess search_names)) at 1 3.
  rewrite (load_library_loop_refused _ _ _ _ _ Href). simpl.
  by rewrite <- !app_assoc.
Qed.

(** X3. An exception of [CDLL] that is not an [OSError] is not caught: it
    leaves [load_library] at once, and the names after the one that raised
    it are not tried. *)
Theorem load_library_other_exception nickname search_names s0 log guess s1
    tried name rest s2 e s3 :
  find_library nickname s0 = (guess, s1) ->
  candidates guess search_names = tried ++ name :: rest ->
  refused tried s1 s2 ->
  CDLL name s2 = (Raises e, s3) ->
  e ≠ OSError ->
  load_library nickname search_names (s0, log) =
    ((Raises e, tried ++ name :: rest),
     (s3, log ++ (CallFindLibrary nickname, true)
              :: map (λ n, (CallCDLL n, false)) tried ++ [(CallCDLL name, false)])).
Proof.
  intros Hfind Hnames Href Hcall Hne.
  rewrite (load_library_unfold _ _ _ _ _ _ Hfind), Hnames.
  rewrite (load_library_loop_refused _ _ _ _ _ Href). simpl.
  unfold call_CDLL, logged. rewrite Hcall. simpl.
  rewrite <- !app_assoc. by destruct e.
Qed.

(** X4. [load_library] never returns [None]: whenever it returns, on any
    machine, the value is a library that the last call of [CDLL] loaded, for
    a name of the list it worked on. *)
Theorem load_library_returns_loaded nickname search_names st v names st' :
  load_library nickname search_names st = ((Returns v, names), st') ->
  ∃ lib name s,
    v = Some lib ∧ name ∈ names ∧
    CDLL name s = (Returns lib, fst st') ∧
    last (snd st') = Some (CallCDLL name, true).
Proof.
  destruct st as [s0 log], st' as [s' log'].
  destruct (find_library nickname s0) as [guess s1] eqn:Hfind.
  rewrite (load_library_unfold _ _ _ _ _ _ Hfind).
  destruct (load_library_loop (candidates guess search_names) None
              (s1, log ++ [(CallFindLibrary nickname, true)]))
    as [r [s2 log2]] eqn:Hloop.
  simpl. intros Hrun.
  apply load_library_loop_calls in Hloop as (k & ok & Hlog & Hr).
  destruct r as [[v' | library] | e].
  - destruct Hr as (lib & name & s & -> & Hk & -> & Hcall).
    injection Hrun as <- <- <- <-.
    exists lib, name, s. split; [done |].
    split; [by eapply list_elem_of_lookup_2 |]. split; [done |].
    simpl. rewrite Hlog, Hk. simpl. by rewrite !app_assoc, last_snoc.
  - destruct Hr as [-> _]. done.
  - done.
Qed.

(** The list [load_library] leaves behind, and the names it calls [CDLL]
    on. *)
Lemma load_library_names nickname search_names s0 log guess s1 r names s' log' :
  find_library nickname s0 = (guess, s1) ->
  load_library nickname search_names (s0, log) = ((r, names), (s', log')) ->
  names = candidates guess search_names ∧
  ∃ k ok,
    log' = log ++ (CallFindLibrary nickname, true)
               :: map (λ n, (CallCDLL n, false)) (take k names)
               ++ from_option (λ n, [(CallCDLL n, ok)]) [] (names !! k).
Proof.
  intros Hfind. rewrite (load_library_unfold _ _ _ _ _ _ Hfind).
  destruct (load_library_loop (candidates guess search_names) None
              (s1, log ++ [(CallFindLibrary nickname, true)]))
    as [r0 [s2 log2]] eqn:Hloop.
  simpl. intros [= _ <- <- <-]. split; [done |].
  apply load_library_loop_calls in Hloop as (k & ok & -> & _).
  exists k, ok. by rewrite <- app_assoc.
Qed.

(** X5. [load_library] changes the list it is given: the guess of
    [find_library] is inserted in front and stays there, whatever the
    outcome.  A second call on the same list therefore works on both
    guesses followed by the original names, and calls [CDLL] on names of
    that list only. *)
Theorem load_library_guesses_accumulate nick1 nick2 names s0 log g1 s1
    r1 names1 s2 log1 g2 s3 r2 names2 s4 log2 :
  find_library nick1 s0 = (Some g1, s1) ->
  load_library nick1 (Some names) (s0, log) = ((r1, names1), (s2, log1)) ->
  find_library nick2 s2 = (Some g2, s3) ->
  load_library nick2 (Some names1) (s2, log1) = ((r2, names2), (s4, log2)) ->
  names1 = g1 :: names ∧
  names2 = g2 :: g1 :: names ∧
  ∃ calls, log2 = log1 ++ (CallFindLibrary nick2, true) :: calls ∧
           ∀ name ok, (CallCDLL name, ok) ∈ calls -> name ∈ g2 :: g1 :: names.
Proof.
  intros Hf1 Hrun1 Hf2 Hrun2.
  destruct (load_library_names _ _ _ _ _ _ _ _ _ _ Hf1 Hrun1) as [-> _].
  destruct (load_library_names _ _ _ _ _ _ _ _ _ _ Hf2 Hrun2)
    as [-> (k & ok & ->)].
  simpl candidates. split; [done |]. split; [done |].
  eexists. split; [reflexivity |].
  intros name ok' Hin. apply elem_of_app in Hin as [Hin | Hin].
  - apply list_elem_of_fmap in Hin as (n & [= -> _] & Hn).
    apply elem_of_take in Hn as (i & Hi & _). by eapply list_elem_of_lookup_2.
  - destruct ((g2 :: g1 :: names) !! k) as [n |] eqn:Hk; simpl in Hin.
    + apply list_elem_of_singleton in Hin as [= -> _].
      by eapply list_elem_of_lookup_2.
    + by apply elem_of_nil in Hin.
Qed.

End LoadingFacts.

(** X1 at work: libpam is installed under its versioned name only, and
    [find_library] knows nothing about it. *)
Lemma load_library_first_loadable_witness :
  @load_library DemoSys.runtime "pam"
    (Some ["libpam.so"; "libpam.so.0"; "libpam.so.1"]%string) (DemoSys.linux, []) =
    ((Returns (Some "libpam.so.0"%string),
      ["libpam.so"%string] ++ "libpam.so.0"%string :: ["libpam.so.1"%string]),
     (DemoSys.linux,
      [] ++ (CallFindLibrary "pam", true)
         :: map (λ n, (CallCDLL n, false)) ["libpam.so"%string]
         ++ [(CallCDLL "libpam.so.0", true)])).
Proof.
  apply (@load_library_first_loadable DemoSys.runtime "pam"
           (Some ["libpam.so"; "libpam.so.0"; "libpam.so.1"]%string)
           DemoSys.linux [] None DemoSys.linux ["libpam.so"%string]
           "libpam.so.0" ["libpam.so.1"%string] DemoSys.linux "libpam.so.0"%string
           DemoSys.linux).
  - reflexivity.
  - reflexivity.
  - simpl. eexists. split; reflexivity.
  - reflexivity.
Defined.

(** X2 at work: no name given, no guess, so no candidate at all. *)
Lemma load_library_none_loadable_witness :
  @load_library DemoSys.runtime "pam" None (DemoSys.linux, []) =
    ((Raises (AssertionError "Failed to load 'pam' library."),
      @candidates None None),
     (DemoSys.linux,
      [] ++ (CallFindLibrary "pam", true)
         :: map (λ n, (CallCDLL n, false)) (candidates None None))).
Proof.
  apply (@load_library_none_loadable DemoSys.runtime "pam" None DemoSys.linux []
           None DemoSys.linux DemoSys.linux).
  - reflexivity.
  - reflexivity.
Defined.

(** X3 at work: on [DemoSys.bare] the loader rejects [libpam.so.0] with an
    exception that is not an [OSError]. *)
Lemma load_library_other_exception_witness :
  @load_library DemoSys.runtime "pam"
    (Some ["libpam.so"; "libpam.so.0"; "libpam.so.1"]%string) (DemoSys.bare, []) =
    ((Raises (OtherError 0),
      ["libpam.so"%string] ++ "libpam.so.0"%string :: ["libpam.so.1"%string]),
     (DemoSys.bare,
      [] ++ (CallFindLibrary "pam", true)
         :: map (λ n, (CallCDLL n, false)) ["libpam.so"%string]
         ++ [(CallCDLL "libpam.so.0", false)])).
Proof.
  apply (@load_library_other_exception DemoSys.runtime "pam"
           (Some ["libpam.so"; "libpam.so.0"; "libpam.so.1"]%string)
           DemoSys.bare [] None DemoSys.bare ["libpam.so"%string]
           "libpam.so.0" ["libpam.so.1"%string] DemoSys.bare (OtherError 0)
           DemoSys.bare).
  - reflexivity.
  - reflexivity.
  - simpl. eexists. split; reflexivity.
  - reflexivity.
  - discriminate.
Defined.

(** X4 at work: libc, found through the guess of [find_library]. *)
Lemma load_library_returns_loaded_witness :
  ∃ lib name s,
    Some "libc.so.6"%string = Some lib ∧
    name ∈ ["libc.so.6"; "libc.so"; "libc.so.6"; "libc.so.5"]%string ∧
    @CDLL DemoSys.runtime name s = (Returns lib, DemoSys.linux) ∧
    last [(CallFindLibrary "c", true); (CallCDLL "libc.so.6", true)]
      = Some (CallCDLL name, true).
Proof.
  apply (@load_library_returns_loaded DemoSys.runtime "c"
           (Some ["libc.so"; "libc.so.6"; "libc.so.5"]%string) (DemoSys.linux, [])
           (Some "libc.so.6"%string)
           ["libc.so.6"; "libc.so"; "libc.so.6"; "libc.so.5"]%string
           (DemoSys.linux,
            [(CallFindLibrary "c", true); (CallCDLL "libc.so.6", true)])).
  reflexivity.
Defined.

(** X5 at work: one list object handed to two calls. *)
Lemma load_library_guesses_accumulate_witness :
  ["libc.so.6"; "libc.so"]%string = ["libc.so.6"; "libc.so"]%string ∧
  ["libc.so.6"; "libc.so.6"; "libc.so"]%string =
    ["libc.so.6"; "libc.so.6"; "libc.so"]%string ∧
  ∃ calls,
    [(CallFindLibrary "c", true); (CallCDLL "libc.so.6", true);
     (CallFindLibrary "c", true); (CallCDLL "libc.so.6", true)]
    = [(CallFindLibrary "c", true); (CallCDLL "libc.so.6", true)]
        ++ (CallFindLibrary "c", true) :: calls ∧
    ∀ name ok, (CallCDLL name, ok) ∈ calls ->
               name ∈ ["libc.so.6"; "libc.so.6"; "libc.so"]%string.
Proof.
  apply (@load_library_guesses_accumulate DemoSys.runtime "c" "c" ["libc.so"%string]
           DemoSys.linux [] "libc.so.6"%string DemoSys.linux
           (Returns (Some "libc.so.6"%string)) ["libc.so.6"; "libc.so"]%string
           DemoSys.linux [(CallFindLibrary "c", true); (CallCDLL "libc.so.6", true)]
           "libc.so.6"%string DemoSys.linux
           (Returns (Some "libc.so.6"%string))
           ["libc.so.6"; "libc.so.6"; "libc.so"]%string DemoSys.linux
           [(CallFindLibrary "c", true); (CallCDLL "libc.so.6", true);
            (CallFindLibrary "c", true); (CallCDLL "libc.so.6", true)]).
  - reflexivity.
  - reflexivity.
  - reflexivity.
  - reflexivity.
Defined.

(** ** The AIX archive loader *)

Section ArchiveFacts.

Context `{Runtime}.

(** Imports that succeed, one call each. *)
Lemma import_modules_imported modules :
  ∀ s s' log,
    imported modules s s' ->
    import_modules modules (s, log) =
      (Returns tt, (s', log ++ map (λ m, (CallImport m, true)) modules)).
Proof.
  induction modules as [| m modules IH]; intros s s' log Himp; simpl in *.
  - subst. by rewrite app_nil_r.
  - destruct Himp as (s1 & Hcall & Himp).
    unfold logged. rewrite Hcall. simpl.
    rewrite (IH _ _ _ Himp). by rewrite <- app_assoc.
Qed.

(** X6. When every step succeeds up to the closing of the temporary file,
    [load_library_from_aix_archive] imports its three modules, opens the
    archive, reads its headers, creates a temporary file, registers its
    removal at exit, writes the member's bytes into it, closes it and then
    calls [CDLL] on the temporary file's path, not on the archive's; the
    outcome of that call, a library or any exception ([OSError] included),
    is the outcome of the function. *)
Theorem aix_archive_loaded path member_name s0 log si archive s1 s2 member fd tmp
    s3 s4 s5 data s6 s7 s8 r s9 :
  imported aix_imports s0 si ->
  AIXBigArchive path si = (Returns archive, s1) ->
  read_all_headers archive s1 = (Returns tt, s2) ->
  archived_files archive s2 !! member_name = Some member ->
  mkstemp s2 = (Returns (fd, tmp), s3) ->
  fdopen fd s3 = (Returns tt, s4) ->
  atexit_register tmp s4 = (Returns tt, s5) ->
  member_read member s5 = (Returns data, s6) ->
  file_write fd data s6 = (Returns tt, s7) ->
  file_close fd s7 = (Returns tt, s8) ->
  CDLL tmp s8 = (r, s9) ->
  load_library_from_aix_archive path member_name (s0, log) =
    (r, (s9, log ++ map (λ m, (CallImport m, true)) aix_imports
                 ++ [ (CallAIXBigArchive path, true); (CallReadAllHeaders, true);
                      (CallMkstemp, true); (CallFdopen fd, true);
                      (CallAtexitRegister tmp, true); (CallMemberRead, true);
                      (CallWrite fd data, true); (CallClose fd, true);
                      (CallCDLL tmp, returned r) ])).
Proof.
  intros Himp Hopen Hheaders Hmember Hmk Hfd Hreg Hread Hwrite Hclose Hload.
  unfold load_library_from_aix_archive, load_library_from_aix_archive_try,
    call_CDLL.
  rewrite (import_modules_imported _ _ _ _ Himp). unfold logged.
  rewrite Hopen. simpl. rewrite Hheaders. simpl. rewrite Hmember.
  rewrite Hmk. simpl. rewrite Hfd. simpl. rewrite Hreg. simpl.
  rewrite Hread. simpl. rewrite Hwrite. simpl. rewrite Hclose. simpl.
  rewrite Hload. by rewrite <- !app_assoc.
Qed.

(** X7. A member that is not in the archive: the dictionary lookup raises
    [KeyError] right after the headers were read, before any temporary file
    is created. *)
Theorem aix_missing_member path member_name s0 log si archive s1 s2 :
  imported aix_imports s0 si ->
  AIXBigArchive path si = (Returns archive, s1) ->
  read_all_headers archive s1 = (Returns tt, s2) ->
  archived_files archive s2 !! member_name = None ->
  load_library_from_aix_archive path member_name (s0, log) =
    (Raises (KeyError member_name),
     (s2, log ++ map (λ m, (CallImport m, true)) aix_imports
              ++ [(CallAIXBigArchive path, true); (CallReadAllHeaders, true)])).
Proof.
  intros Himp Hopen Hheaders Hmember.
  unfold load_library_from_aix_archive.
  rewrite (import_modules_imported _ _ _ _ Himp). unfold logged.
  rewrite Hopen. simpl. rewrite Hheaders. simpl. rewrite Hmember.
  by rewrite <- !app_assoc.
Qed.

(** X8. When [os.fdopen] raises, [temp_file] is still [None]: the exception
    leaves the function with the file that [mkstemp] created neither
    registered for removal nor closed, and nothing is loaded. *)
Theorem aix_fdopen_failure path member_name s0 log si archive s1 s2 member fd tmp
    s3 e s4 :
  imported aix_imports s0 si ->
  AIXBigArchive path si = (Returns archive, s1) ->
  read_all_headers archive s1 = (Returns tt, s2) ->
  archived_files archive s2 !! member_name = Some member ->
  mkstemp s2 = (Returns (fd, tmp), s3) ->
  fdopen fd s3 = (Raises e, s4) ->
  load_library_from_aix_archive path member_name (s0, log) =
    (Raises e,
     (s4, log ++ map (λ m, (CallImport m, true)) aix_imports
              ++ [ (CallAIXBigArchive path, true); (CallReadAllHeaders, true);
                   (CallMkstemp, true); (CallFdopen fd, false) ])).
Proof.
  intros Himp Hopen Hheaders Hmember Hmk Hfd.
  unfold load_library_from_aix_archive, load_library_from_aix_archive_try.
  rewrite (import_modules_imported _ _ _ _ Himp). unfold logged.
  rewrite Hopen. simpl. rewrite Hheaders. simpl. rewrite Hmember.
  rewrite Hmk. simpl. rewrite Hfd. simpl.
  by rewrite <- !app_assoc.
Qed.

(** X9. When writing the member fails, the [finally] clause still closes
    the file, the removal at exit stays registered, and [CDLL] is not
    called; the function raises the exception of the write, or that of
    [close] when closing fails too. *)
Theorem aix_write_failure path member_name s0 log si archive s1 s2 member fd tmp
    s3 s4 s5 data s6 e s7 closed s8 :
  imported aix_imports s0 si ->
  AIXBigArchive path si = (Returns archive, s1) ->
  read_all_headers archive s1 = (Returns tt, s2) ->
  archived_files archive s2 !! member_name = Some member ->
  mkstemp s2 = (Returns (fd, tmp), s3) ->
  fdopen fd s3 = (Returns tt, s4) ->
  atexit_register tmp s4 = (Returns tt, s5) ->
  member_read member s5 = (Returns data, s6) ->
  file_write fd data s6 = (Raises e, s7) ->
  file_close fd s7 = (closed, s8) ->
  load_library_from_aix_archive path member_name (s0, log) =
    (Raises (match closed with Raises e' => e' | Returns _ => e end),
     (s8, log ++ map (λ m, (CallImport m, true)) aix_imports
              ++ [ (CallAIXBigArchive path, true); (CallReadAllHeaders, true);
                   (CallMkstemp, true); (CallFdopen fd, true);
                   (CallAtexitRegister tmp, true); (CallMemberRead, true);
                   (CallWrite fd data, false); (CallClose fd, returned closed) ])).
Proof.
  intros Himp Hopen Hheaders Hmember Hmk Hfd Hreg Hread Hwrite Hclose.
  unfold load_library_from_aix_archive, load_library_from_aix_archive_try.
  rewrite (import_modules_imported _ _ _ _ Himp). unfold logged.
  rewrite Hopen. simpl. rewrite Hheaders. simpl. rewrite Hmember.
  rewrite Hmk. simpl. rewrite Hfd. simpl. rewrite Hreg. simpl.
  rewrite Hread. simpl. rewrite Hwrite. simpl. rewrite Hclose.
  rewrite <- !app_assoc. by destruct closed.
Qed.

(** Every run of the archive loader, by cases on where it stops. *)
Lemma aix_runs path member_name s log r s' log' :
  load_library_from_aix_archive path member_name (s, log) = (r, (s', log')) ->
  ∃ calls,
    log' = log ++ calls ∧
    Forall (λ e, is_find_library e = false) calls ∧
    (∃ ok, head calls = Some (CallImport "atexit", ok)) ∧
    (filter (λ e, is_opened e || is_close e) calls = [] ∨
     ∃ fd ok, filter (λ e, is_opened e || is_close e) calls =
                [(CallFdopen fd, true); (CallClose fd, ok)]) ∧
    ((filter is_CDLL calls = [] ∧ returned r = false) ∨
     ∃ fd tmp data,
       calls = map (λ m, (CallImport m, true)) aix_imports
               ++ [ (CallAIXBigArchive path, true); (CallReadAllHeaders, true);
                    (CallMkstemp, true); (CallFdopen fd, true);
                    (CallAtexitRegister tmp, true); (CallMemberRead, true);
                    (CallWrite fd data, true); (CallClose fd, true);
                    (CallCDLL tmp, returned r) ]).
Proof.
  unfold load_library_from_aix_archive, load_library_from_aix_archive_try,
    call_CDLL, aix_imports, import_modules, logged.
  intros Hrun.
  repeat (case_match; simplify_eq/=);
    (eexists; split; [rewrite <- ?app_assoc; reflexivity |]);
    (split; [repeat constructor |]);
    (split; [by eexists |]);
    (split; [first [by left | right; by eexists _, _] |]);
    first [by left | right; by eexists _, _, _].
Qed.

(** X10. On every path through [load_library_from_aix_archive], whatever
    fails, a temporary file that was opened is closed exactly once, through
    the same descriptor, and nothing is closed that was not opened. *)
Theorem aix_temp_file_closed path member_name s log r s' log' :
  load_library_from_aix_archive path member_name (s, log) = (r, (s', log')) ->
  ∃ calls,
    log' = log ++ calls ∧
    (filter (λ e, is_opened e || is_close e) calls = [] ∨
     ∃ fd ok, filter (λ e, is_opened e || is_close e) calls =
                [(CallFdopen fd, true); (CallClose fd, ok)]).
Proof.
  intros Hrun. apply aix_runs in Hrun as (calls & Hlog & _ & _ & Hclosed & _).
  by exists calls.
Qed.

(** X11. [load_library_from_aix_archive] calls [CDLL] only after a complete
    extraction: in every run either [CDLL] is not called and the function
    raises, or every step before it succeeded, the imports included, the
    file being written and closed, and [CDLL] is the last call, on the
    temporary path. *)
Theorem aix_loads_only_after_extraction path member_name s log r s' log' :
  load_library_from_aix_archive path member_name (s, log) = (r, (s', log')) ->
  ∃ calls,
    log' = log ++ calls ∧
    ((filter is_CDLL calls = [] ∧ returned r = false) ∨
     ∃ fd tmp data,
       calls = map (λ m, (CallImport m, true)) aix_imports
               ++ [ (CallAIXBigArchive path, true); (CallReadAllHeaders, true);
                    (CallMkstemp, true); (CallFdopen fd, true);
                    (CallAtexitRegister tmp, true); (CallMemberRead, true);
                    (CallWrite fd data, true); (CallClose fd, true);
                    (CallCDLL tmp, returned r) ]).
Proof.
  intros Hrun. apply aix_runs in Hrun as (calls & Hlog & _ & _ & _ & Hload).
  by exists calls.
Qed.

End ArchiveFacts.

(** The imports of the archive loader succeed on every [DemoSys] machine. *)
Lemma demo_imported s : @imported DemoSys.runtime aix_imports s s.
Proof. simpl. repeat (eexists; split; [reflexivity |]). reflexivity. Qed.

(** X6 at work: [/lib/libpam.a] on the AIX machine. *)
Lemma aix_archive_loaded_witness :
  @load_library_from_aix_archive DemoSys.runtime "/lib/libpam.a" "shr.o"
    (DemoSys.aix true false, []) =
    (Returns "/tmp/tmpq3xk"%string,
     (DemoSys.aix true false,
      [] ++ map (λ m, (CallImport m, true)) aix_imports
         ++ [ (CallAIXBigArchive "/lib/libpam.a", true); (CallReadAllHeaders, true);
              (CallMkstemp, true); (CallFdopen 3, true);
              (CallAtexitRegister "/tmp/tmpq3xk", true); (CallMemberRead, true);
              (CallWrite 3 [x7f; x45; x4c; x46], true); (CallClose 3, true);
              (CallCDLL "/tmp/tmpq3xk",
               returned (Returns (A := string) "/tmp/tmpq3xk"%string)) ])).
Proof.
  apply (@aix_archive_loaded DemoSys.runtime "/lib/libpam.a" "shr.o"
           (DemoSys.aix true false) [] (DemoSys.aix true false)
           "/lib/libpam.a"%string
           (DemoSys.aix true false) (DemoSys.aix true false) [x7f; x45; x4c; x46]
           3 "/tmp/tmpq3xk"%string
           (DemoSys.aix true false) (DemoSys.aix true false) (DemoSys.aix true false)
           [x7f; x45; x4c; x46]
           (DemoSys.aix true false) (DemoSys.aix true false) (DemoSys.aix true false)
           (Returns "/tmp/tmpq3xk"%string) (DemoSys.aix true false));
    first [apply demo_imported | reflexivity].
Defined.

(** X7 at work: the archive has no member [shr_64.o]. *)
Lemma aix_missing_member_witness :
  @load_library_from_aix_archive DemoSys.runtime "/lib/libpam.a" "shr_64.o"
    (DemoSys.aix true false, []) =
    (Raises (KeyError "shr_64.o"),
     (DemoSys.aix true false,
      [] ++ map (λ m, (CallImport m, true)) aix_imports
         ++ [(CallAIXBigArchive "/lib/libpam.a", true); (CallReadAllHeaders, true)])).
Proof.
  apply (@aix_missing_member DemoSys.runtime "/lib/libpam.a" "shr_64.o"
           (DemoSys.aix true false) [] (DemoSys.aix true false)
           "/lib/libpam.a"%string
           (DemoSys.aix true false) (DemoSys.aix true false));
    first [apply demo_imported | reflexivity].
Defined.

(** X8 at work: [os.fdopen] fails on the AIX machine. *)
Lemma aix_fdopen_failure_witness :
  @load_library_from_aix_archive DemoSys.runtime "/lib/libpam.a" "shr.o"
    (DemoSys.aix false false, []) =
    (Raises OSError,
     (DemoSys.aix false false,
      [] ++ map (λ m, (CallImport m, true)) aix_imports
         ++ [ (CallAIXBigArchive "/lib/libpam.a", true); (CallReadAllHeaders, true);
              (CallMkstemp, true); (CallFdopen 3, false) ])).
Proof.
  apply (@aix_fdopen_failure DemoSys.runtime "/lib/libpam.a" "shr.o"
           (DemoSys.aix false false) [] (DemoSys.aix false false)
           "/lib/libpam.a"%string
           (DemoSys.aix false false) (DemoSys.aix false false) [x7f; x45; x4c; x46]
           3 "/tmp/tmpq3xk"%string (DemoSys.aix false false) OSError
           (DemoSys.aix false false));
    first [apply demo_imported | reflexivity].
Defined.

(** X9 at work: no space left for the member. *)
Lemma aix_write_failure_witness :
  @load_library_from_aix_archive DemoSys.runtime "/lib/libpam.a" "shr.o"
    (DemoSys.aix true true, []) =
    (Raises (match Returns tt with Raises e' => e' | Returns _ => OSError end),
     (DemoSys.aix true true,
      [] ++ map (λ m, (CallImport m, true)) aix_imports
         ++ [ (CallAIXBigArchive "/lib/libpam.a", true); (CallReadAllHeaders, true);
              (CallMkstemp, true); (CallFdopen 3, true);
              (CallAtexitRegister "/tmp/tmpq3xk", true); (CallMemberRead, true);
              (CallWrite 3 [x7f; x45; x4c; x46], false);
              (CallClose 3, returned (Returns tt)) ])).
Proof.
  apply (@aix_write_failure DemoSys.runtime "/lib/libpam.a" "shr.o"
           (DemoSys.aix true true) [] (DemoSys.aix true true)
           "/lib/libpam.a"%string
           (DemoSys.aix true true) (DemoSys.aix true true) [x7f; x45; x4c; x46]
           3 "/tmp/tmpq3xk"%string
           (DemoSys.aix true true) (DemoSys.aix true true) (DemoSys.aix true true)
           [x7f; x45; x4c; x46] (DemoSys.aix true true) OSError
           (DemoSys.aix true true) (Returns tt) (DemoSys.aix true true));
    first [apply demo_imported | reflexivity].
Defined.

(** X10 at work, on the run where writing fails. *)
Lemma aix_temp_file_closed_witness :
  ∃ calls,
    [ (CallImport "atexit", true); (CallImport "tempfile", true);
      (CallImport "arpy", true);
      (CallAIXBigArchive "/lib/libpam.a", true); (CallReadAllHeaders, true);
      (CallMkstemp, true); (CallFdopen 3, true);
      (CallAtexitRegister "/tmp/tmpq3xk", true); (CallMemberRead, true);
      (CallWrite 3 [x7f; x45; x4c; x46], false); (CallClose 3, true) ]
    = [] ++ calls ∧
    (filter (λ e, is_opened e || is_close e) calls = [] ∨
     ∃ fd ok, filter (λ e, is_opened e || is_close e) calls =
                [(CallFdopen fd, true); (CallClose fd, ok)]).
Proof.
  apply (@aix_temp_file_closed DemoSys.runtime "/lib/libpam.a" "shr.o"
           (DemoSys.aix true true) [] (Raises OSError) (DemoSys.aix true true)).
  vm_compute. reflexivity.
Defined.

(** X11 at work, on the run where [os.fdopen] fails. *)
Lemma aix_loads_only_after_extraction_witness :
  ∃ calls,
    [ (CallImport "atexit", true); (CallImport "tempfile", true);
      (CallImport "arpy", true);
      (CallAIXBigArchive "/lib/libpam.a", true); (CallReadAllHeaders, true);
      (CallMkstemp, true); (CallFdopen 3, false) ] = [] ++ calls ∧
    ((filter is_CDLL calls = [] ∧ returned (Raises (A := string) OSError) = false) ∨
     ∃ fd tmp data,
       calls = map (λ m, (CallImport m, true)) aix_imports
               ++ [ (CallAIXBigArchive "/lib/libpam.a", true); (CallReadAllHeaders, true);
                    (CallMkstemp, true); (CallFdopen fd, true);
                    (CallAtexitRegister tmp, true); (CallMemberRead, true);
                    (CallWrite fd data, true); (CallClose fd, true);
                    (CallCDLL tmp, returned (Raises (A := string) OSError)) ]).
Proof.
  apply (@aix_loads_only_after_extraction DemoSys.runtime "/lib/libpam.a" "shr.o"
           (DemoSys.aix false false) [] (Raises OSError) (DemoSys.aix false false)).
  vm_compute. reflexivity.
Defined.

(** ** The libraries of the module *)

Section ImportFacts.

Context `{Runtime}.

(** The calls of [load_library] never touch an archive or a file. *)
Lemma load_library_calls_plain nickname (names : list string) k ok :
  Forall (λ e, is_archive_call e = false)
    ((CallFindLibrary nickname, true)
       :: map (λ n, (CallCDLL n, false)) (take k names)
       ++ from_option (λ n, [(CallCDLL n, ok)]) [] (names !! k)).
Proof.
  constructor; [done |]. apply Forall_app. split.
  - apply Forall_forall. intros e (n & -> & _)%list_elem_of_fmap. done.
  - destruct (names !! k); simpl; by repeat constructor.
Qed.

(** X12. Off AIX the module looks for libpam first, under the guess of
    [find_library] and then [libpam.so], [libpam.so.0], [libpam.so.1] in
    that order; when [CDLL] refuses them all, the import fails with
    [AssertionError("Failed to load 'pam' library.")] and libc is not even
    looked for. *)
Theorem import_fails_without_libpam platform s0 log guess s1 s2 :
  String.prefix "aix" platform = false ->
  find_library "pam" s0 = (guess, s1) ->
  refused (candidates guess (Some ["libpam.so"; "libpam.so.0"; "libpam.so.1"]%string))
          s1 s2 ->
  load_LIBPAM_LIBC platform (s0, log) =
    (Raises (AssertionError "Failed to load 'pam' library."),
     (s2, log ++ (CallFindLibrary "pam", true)
              :: map (λ n, (CallCDLL n, false))
                   (candidates guess
                      (Some ["libpam.so"; "libpam.so.0"; "libpam.so.1"]%string)))).
Proof.
  intros Hplatform Hfind Href. unfold load_LIBPAM_LIBC. rewrite Hplatform.
  rewrite (load_library_unfold _ _ _ _ _ _ Hfind).
  pose proof (load_library_loop_refused _ [] _ _
                (log ++ [(CallFindLibrary "pam", true)]) Href) as Hloop.
  rewrite app_nil_r in Hloop. rewrite Hloop. simpl.
  by rewrite <- app_assoc.
Qed.

(** X13. The platform decides how the libraries are loaded, on every run of
    the import: when [sys.platform] starts with [aix], [find_library] is
    never called and the run starts with the imports of the archive
    loader; otherwise the first call is [find_library('pam')] and no
    module is imported, no archive, temporary file or exit handler
    touched. *)
Theorem import_platform_dispatch platform s log r s' log' :
  load_LIBPAM_LIBC platform (s, log) = (r, (s', log')) ->
  ∃ calls,
    log' = log ++ calls ∧
    if String.prefix "aix" platform
    then Forall (λ e, is_find_library e = false) calls ∧
         ∃ ok, head calls = Some (CallImport "atexit", ok)
    else Forall (λ e, is_archive_call e = false) calls ∧
         head calls = Some (CallFindLibrary "pam", true).
Proof.
  unfold load_LIBPAM_LIBC. intros Hrun.
  destruct (String.prefix "aix" platform).
  - destruct (load_library_from_aix_archive "/lib/libpam.a" default_member_name (s, log))
      as [r1 [s1 log1]] eqn:Hpam.
    apply aix_runs in Hpam as (calls1 & -> & Hplain1 & [ok Hhead] & _).
    destruct r1 as [LIBPAM | e].
    + destruct (load_library_from_aix_archive "/lib/libc.a" default_member_name
                  (s1, log ++ calls1)) as [r2 [s2 log2]] eqn:Hc.
      apply aix_runs in Hc as (calls2 & -> & Hplain2 & _).
      assert (log' = (log ++ calls1) ++ calls2) as ->
        by (destruct r2; by injection Hrun as <- <- <-).
      exists (calls1 ++ calls2). split; [by rewrite app_assoc |].
      split; [by apply Forall_app |].
      exists ok. destruct calls1; [done |]. done.
    + injection Hrun as <- <- <-. exists calls1. split; [done |].
      split; [done | by exists ok].
  - destruct (find_library "pam" s) as [g1 sa] eqn:Hf1.
    destruct (load_library "pam" (Some ["libpam.so"; "libpam.so.0"; "libpam.so.1"]%string)
                (s, log)) as [[r1 names1] [s1 log1]] eqn:Hpam.
    destruct (load_library_names _ _ _ _ _ _ _ _ _ _ Hf1 Hpam)
      as [_ (k1 & ok1 & ->)].
    destruct r1 as [LIBPAM | e].
    + destruct (find_library "c" s1) as [g2 sb] eqn:Hf2.
      match type of Hrun with
      | context [load_library "c" ?l ?st] =>
          destruct (load_library "c" l st) as [[r2 names2] [s2 log2]] eqn:Hc
      end.
      destruct (load_library_names _ _ _ _ _ _ _ _ _ _ Hf2 Hc)
        as [_ (k2 & ok2 & ->)].
      assert (log' =
                (log ++ (CallFindLibrary "pam", true)
                   :: map (λ n, (CallCDLL n, false)) (take k1 names1)
                   ++ from_option (λ n, [(CallCDLL n, ok1)]) [] (names1 !! k1))
                ++ (CallFindLibrary "c", true)
                   :: map (λ n, (CallCDLL n, false)) (take k2 names2)
                   ++ from_option (λ n, [(CallCDLL n, ok2)]) [] (names2 !! k2)) as ->
        by (destruct r2; by injection Hrun as <- <- <-).
      eexists. split; [by rewrite <- app_assoc |].
      split; [| done].
      apply Forall_app. split; apply load_library_calls_plain.
    + injection Hrun as <- <- <-. eexists. split; [done |].
      split; [apply load_library_calls_plain | done].
Qed.

End ImportFacts.

(** X12 at work: a Linux machine without libpam. *)
Lemma import_fails_without_libpam_witness :
  @load_LIBPAM_LIBC DemoSys.runtime "linux" (DemoSys.without_pam, []) =
    (Raises (AssertionError "Failed to load 'pam' library."),
     (DemoSys.without_pam,
      [] ++ (CallFindLibrary "pam", true)
         :: map (λ n, (CallCDLL n, false))
              (candidates None
                 (Some ["libpam.so"; "libpam.so.0"; "libpam.so.1"]%string)))).
Proof.
  apply (@import_fails_without_libpam DemoSys.runtime "linux" DemoSys.without_pam []
           None DemoSys.without_pam DemoSys.without_pam).
  - reflexivity.
  - reflexivity.
  - simpl. repeat (eexists; split; [reflexivity |]). reflexivity.
Defined.

(** X13 at work: the import on the Linux machine, where both libraries
    load. *)
Lemma import_platform_dispatch_witness :
  ∃ calls,
    [ (CallFindLibrary "pam", true); (CallCDLL "libpam.so", false);
      (CallCDLL "libpam.so.0", true);
      (CallFindLibrary "c", true); (CallCDLL "libc.so.6", true) ] = [] ++ calls ∧
    if String.prefix "aix" "linux"
    then Forall (λ e, is_find_library e = false) calls ∧
         ∃ ok, head calls = Some (CallImport "atexit", ok)
    else Forall (λ e, is_archive_call e = false) calls ∧
         head calls = Some (CallFindLibrary "pam", true).
Proof.
  apply (@import_platform_dispatch DemoSys.runtime "linux" DemoSys.linux []
           (Returns (Some "libpam.so.0"%string, Some "libc.so.6"%string))
           DemoSys.linux).
  reflexivity.
Defined.

(** * Further properties of the callback *)

(** ** Calls that libpam would not make *)

(** An allocator request, on any world: the next scripted address is
    returned and logged, and no other address changes. *)
Lemma allocate_run b call w :
  ∃ w1,
    allocate b call w = (Ok (next_address (libc w)), w1) ∧
    trace w1 = trace w ++ [call (next_address (libc w))] ∧
    libc w1 = tail (libc w) ∧
    (∀ x, (next_address (libc w) ≠ NULL -> x ≠ next_address (libc w)) ->
          heap w1 !! x = heap w !! x).
Proof.
  unfold allocate. destruct (libc w) as [| v rest]; simpl.
  - eexists. split; [done |]. by repeat split.
  - destruct (decide (v = NULL)) as [-> | Hv].
    + eexists. split; [done |]. by repeat split.
    + eexists. split; [done |]. repeat split; try done. simpl.
      intros x Hx. by rewrite lookup_insert_ne by (intros ->; by apply Hx).
Qed.

(** A non-NULL address the allocator is about to return is one of its
    answers. *)
Lemma next_address_elem l : next_address l ≠ NULL -> next_address l ∈ l.
Proof. destruct l; simpl; [done | left]. Qed.

(** A block in use is not where a fresh allocator allocates next. *)
Lemma in_use_not_next w x b :
  allocator_fresh w -> heap w !! x = Some b ->
  next_address (libc w) ≠ NULL -> x ≠ next_address (libc w).
Proof.
  intros Hfresh Hx Hnext ->.
  rewrite (fresh_not_in_use _ _ Hfresh (next_address_elem _ Hnext) Hnext) in Hx.
  done.
Qed.

(** The callback up to the start of its loop, when [calloc] has answered
    and the out-parameter is a valid cell. *)
Lemma my_conv_prologue password n messages p app w old :
  p ≠ NULL -> heap w !! p = Some (RespPtr old) -> allocator_fresh w ->
  ∃ w2,
    my_conv password n messages p app w =
      bind (for_each (range n) (my_conv_step password messages p))
           (fun _ => ret 0) w2 ∧
    trace w2 = trace w ++ [CallCalloc (c_uint n) sizeof_PamResponse
                             (next_address (libc w))] ∧
    heap w2 !! p = Some (RespPtr (next_address (libc w))).
Proof.
  intros Hp Hold Hfresh.
  destruct (allocate_run
              (RespArray (replicate (Z.to_nat (c_uint n)) zero_PamResponse))
              (CallCalloc (c_uint n) (c_uint sizeof_PamResponse)) w)
    as (w1 & Hcalloc & Htr & _ & Hframe).
  assert (heap w1 !! p = Some (RespPtr old)) as Hold1.
  { rewrite Hframe; [done |]. by eapply in_use_not_next. }
  exists (put_block p (RespPtr (next_address (libc w))) w1).
  split; [| split].
  - unfold my_conv. unfold bind at 1. unfold CALLOC. rewrite Hcalloc.
    unfold bind at 1. unfold setitem0 at 1.
    rewrite decide_False by done. by rewrite Hold1.
  - simpl. exact Htr.
  - simpl. by rewrite lookup_insert_eq.
Qed.

Lemma c_uint_negative n : - 2 ^ 32 <= n < 0 -> c_uint n = 2 ^ 32 + n.
Proof.
  intros Hn. unfold c_uint. symmetry.
  apply (Z.mod_unique_pos n (2 ^ 32) (-1)); lia.
Qed.

(** X14. A negative message count: the count goes to [calloc] as a
    [c_uint], so the request is for [2^32 + n] records; [range(n)] is empty,
    so no message is read and nothing is answered, and the callback
    completes with 0 after storing the address in the out-parameter. *)
Theorem negative_count password n messages p app w old :
  - 2 ^ 31 <= n < 0 ->
  p ≠ NULL -> heap w !! p = Some (RespPtr old) ->
  allocator_fresh w ->
  ∃ w',
    my_conv password n messages p app w = (Ok 0, w') ∧
    trace w' = trace w ++ [CallCalloc (2 ^ 32 + n) sizeof_PamResponse
                             (next_address (libc w))] ∧
    heap w' !! p = Some (RespPtr (next_address (libc w))).
Proof.
  intros Hn Hp Hold Hfresh.
  destruct (my_conv_prologue password n messages p app w old Hp Hold Hfresh)
    as (w2 & Hrun & Htr & Hout).
  exists w2. rewrite Hrun. unfold range.
  replace (Z.to_nat n) with 0%nat by lia.
  rewrite <- (c_uint_negative n) by lia. done.
Qed.

(** X15. A NULL out-parameter: [p_response[0] = ...] raises [ValueError]
    right after the one call to [calloc]; no message is read, [strdup] is
    not called, and since nothing else in memory has changed the new array
    is referenced from nowhere. *)
Theorem null_out_parameter password n messages app w :
  ∃ w',
    my_conv password n messages NULL app w =
      (Raise ValueError_NULL_pointer_access, w') ∧
    trace w' = trace w ++ [CallCalloc (c_uint n) sizeof_PamResponse
                             (next_address (libc w))] ∧
    ∀ x, (next_address (libc w) ≠ NULL -> x ≠ next_address (libc w)) ->
         heap w' !! x = heap w !! x.
Proof.
  destruct (allocate_run
              (RespArray (replicate (Z.to_nat (c_uint n)) zero_PamResponse))
              (CallCalloc (c_uint n) (c_uint sizeof_PamResponse)) w)
    as (w1 & Hcalloc & Htr & _ & Hframe).
  exists w1. split; [| by split].
  unfold my_conv. unfold bind at 1. unfold CALLOC. rewrite Hcalloc.
  unfold bind at 1. unfold setitem0 at 1. by rewrite decide_True.
Qed.

(** X16. A NULL message array with a positive count: [messages[0]] raises
    [ValueError] in the first turn of the loop, after [calloc] was called
    and its result stored in the out-parameter; [strdup] is not called. *)
Theorem null_message_array password n p app w old :
  0 < n ->
  p ≠ NULL -> heap w !! p = Some (RespPtr old) ->
  allocator_fresh w ->
  ∃ w',
    my_conv password n NULL p app w = (Raise ValueError_NULL_pointer_access, w') ∧
    trace w' = trace w ++ [CallCalloc (c_uint n) sizeof_PamResponse
                             (next_address (libc w))] ∧
    heap w' !! p = Some (RespPtr (next_address (libc w))).
Proof.
  intros Hn Hp Hold Hfresh.
  destruct (my_conv_prologue password n NULL p app w old Hp Hold Hfresh)
    as (w2 & Hrun & Htr & Hout).
  exists w2. rewrite Hrun. unfold range.
  destruct (Z.to_nat n) as [| k] eqn:Hk; [lia |].
  split; [| by split].
  simpl. unfold bind at 1. unfold bind at 1.
  unfold my_conv_step at 1. unfold bind at 1.
  unfold message_at at 1. by rewrite decide_True.
Qed.

(** X14 at work: a count of -1 on the three-message heap. *)
Lemma negative_count_witness :
  ∃ w',
    my_conv "hunter2" (-1) 100 200 0 (Demo.three_world [300; 310; 320]) = (Ok 0, w') ∧
    trace w' = trace (Demo.three_world [300; 310; 320])
                 ++ [CallCalloc (2 ^ 32 + -1) sizeof_PamResponse
                       (next_address (libc (Demo.three_world [300; 310; 320])))] ∧
    heap w' !! 200 =
      Some (RespPtr (next_address (libc (Demo.three_world [300; 310; 320])))).
Proof.
  apply (negative_count "hunter2" (-1) 100 200 0 (Demo.three_world [300; 310; 320])
           NULL).
  - lia.
  - discriminate.
  - vm_compute. reflexivity.
  - split.
    + apply (bool_decide_unpack _). vm_compute. exact I.
    + repeat constructor; intros _; vm_compute; reflexivity.
Defined.

(** X16 at work: three messages announced, none given. *)
Lemma null_message_array_witness :
  ∃ w',
    my_conv "hunter2" 3 NULL 200 0 (Demo.three_world [300; 310; 320])
      = (Raise ValueError_NULL_pointer_access, w') ∧
    trace w' = trace (Demo.three_world [300; 310; 320])
                 ++ [CallCalloc (c_uint 3) sizeof_PamResponse
                       (next_address (libc (Demo.three_world [300; 310; 320])))] ∧
    heap w' !! 200 =
      Some (RespPtr (next_address (libc (Demo.three_world [300; 310; 320])))).
Proof.
  apply (null_message_array "hunter2" 3 200 0 (Demo.three_world [300; 310; 320]) NULL).
  - lia.
  - discriminate.
  - vm_compute. reflexivity.
  - split.
    + apply (bool_decide_unpack _). vm_compute. exact I.
    + repeat constructor; intros _; vm_compute; reflexivity.
Defined.

(** ** What the callback writes *)

(** Assigning to a field of a response slot changes the array the
    out-parameter points to, and nothing else. *)
Lemma update_response_frame p i f a w r w' :
  heap w !! p = Some (RespPtr a) ->
  update_response p i f w = (r, w') ->
  heap w' !! p = Some (RespPtr a) ∧ libc w' = libc w ∧
  ∀ x, (a ≠ NULL -> x ≠ a) -> heap w' !! x = heap w !! x.
Proof.
  intros Hp Hrun. unfold update_response in Hrun.
  destruct (decide (p = NULL)); [by injection Hrun as <- <- |].
  rewrite Hp in Hrun.
  destruct (decide (a = NULL)); [by injection Hrun as <- <- |].
  destruct (heap w !! a) as [[ | | | rs |] |] eqn:Ha;
    try (by injection Hrun as <- <-).
  destruct (rs !! i) as [r0 |]; [| by injection Hrun as <- <-].
  injection Hrun as <- <-. simpl.
  split; [| split; [done |]].
  - rewrite lookup_insert_ne; [done |]. intros ->. congruence.
  - intros x Hx. by rewrite lookup_insert_ne by (intros ->; by apply Hx).
Qed.

Lemma message_at_pure messages i w r w' :
  message_at messages i w = (r, w') -> w' = w.
Proof.
  unfold message_at. intros Hrun. repeat (case_match; simplify_eq); done.
Qed.

Lemma elem_of_tail (l : list Z) x : x ∈ tail l -> x ∈ l.
Proof. destruct l; simpl; [done | by right]. Qed.

(** One turn of the loop writes at most a fresh block for the copy and the
    array the out-parameter points to. *)
Lemma my_conv_step_frame password messages p a i w r w' :
  heap w !! p = Some (RespPtr a) -> allocator_fresh w ->
  my_conv_step password messages p i w = (r, w') ->
  heap w' !! p = Some (RespPtr a) ∧
  (∀ x, x ∈ libc w' -> x ∈ libc w) ∧
  ∀ x, (a ≠ NULL -> x ≠ a) -> x ∉ libc w -> heap w' !! x = heap w !! x.
Proof.
  intros Hp Hfresh Hrun. unfold my_conv_step, bind in Hrun.
  destruct (message_at messages i w) as [[m | e |] w0] eqn:Hm;
    apply message_at_pure in Hm as ->;
    try (by injection Hrun as <- <-).
  destruct (decide (msg_style m = PAM_PROMPT_ECHO_OFF)) as [Hstyle | Hstyle];
    [| by injection Hrun as <- <-].
  unfold STRDUP in Hrun.
  destruct (allocate_run (CStr (c_str (encode_utf8 password)))
              (CallStrdup (encode_utf8 password)) w)
    as (w1 & Hdup & _ & Hlibc1 & Hframe1).
  rewrite Hdup in Hrun.
  assert (heap w1 !! p = Some (RespPtr a)) as Hp1.
  { rewrite Hframe1; [done |]. by eapply in_use_not_next. }
  assert (∀ x, x ∉ libc w -> heap w1 !! x = heap w !! x) as Hout1.
  { intros x Hx. apply Hframe1. intros Hnext ->.
    apply Hx. by apply next_address_elem. }
  destruct (update_response p i (set_resp (next_address (libc w))) w1)
    as [[[] | e |] w2] eqn:Hup1;
    destruct (update_response_frame _ _ _ _ _ _ _ Hp1 Hup1) as (Hp2 & Hlibc2 & Hframe2).
  - destruct (update_response_frame _ _ _ _ _ _ _ Hp2 Hrun) as (Hp3 & Hlibc3 & Hframe3).
    split; [done |]. split.
    + intros x. rewrite Hlibc3, Hlibc2, Hlibc1. apply elem_of_tail.
    + intros x Hxa Hx. by rewrite Hframe3, Hframe2, Hout1.
  - injection Hrun as <- <-. split; [done |]. split.
    + intros x. rewrite Hlibc2, Hlibc1. apply elem_of_tail.
    + intros x Hxa Hx. by rewrite Hframe2, Hout1.
  - injection Hrun as <- <-. split; [done |]. split.
    + intros x. rewrite Hlibc2, Hlibc1. apply elem_of_tail.
    + intros x Hxa Hx. by rewrite Hframe2, Hout1.
Qed.

Lemma my_conv_loop_frame password messages p a l :
  ∀ w r w',
    heap w !! p = Some (RespPtr a) -> allocator_fresh w ->
    for_each l (my_conv_step password messages p) w = (r, w') ->
    ∀ x, (a ≠ NULL -> x ≠ a) -> x ∉ libc w -> heap w' !! x = heap w !! x.
Proof.
  induction l as [| i l IH]; intros w r w' Hp Hfresh Hrun x Hxa Hx; simpl in Hrun.
  - by injection Hrun as <- <-.
  - unfold bind in Hrun.
    destruct (my_conv_step password messages p i w) as [[[] | e |] w1] eqn:Hstep;
      destruct (my_conv_step_frame _ _ _ _ _ _ _ _ Hp Hfresh Hstep)
        as (Hp1 & Hsub & Hframe);
      try (injection Hrun as <- <-; by apply Hframe).
    destruct (tidy_my_conv_step _ _ _ _ _ _ _ Hstep Hfresh) as [Hfresh1 _].
    rewrite (IH _ _ _ Hp1 Hfresh1 Hrun x Hxa) by (intros Hin; by apply Hx, Hsub).
    by apply Hframe.
Qed.

(** X17. The callback writes only to the out-parameter and to memory it has
    just obtained from libc: with an allocator that hands out unused
    addresses, on every outcome of the call (completion, exception or a
    wild access), every address other than [p_response] and the allocator's
    answers holds after the call what it held before. *)
Theorem callback_writes_only_its_own password n messages p app w :
  allocator_fresh w ->
  changed_only (λ x, x = p ∨ x ∈ libc w) w
    (snd (my_conv password n messages p app w)).
Proof.
  intros Hfresh x Hx.
  assert (x ≠ p) as Hxp by (intros ->; apply Hx; by left).
  assert (x ∉ libc w) as Hxl by (intros Hin; apply Hx; by right).
  unfold my_conv, CALLOC.
  destruct (allocate_run
              (RespArray (replicate (Z.to_nat (c_uint n)) zero_PamResponse))
              (CallCalloc (c_uint n) (c_uint sizeof_PamResponse)) w)
    as (w1 & Hcalloc & _ & Hlibc1 & Hframe1).
  assert (heap w1 !! x = heap w !! x) as Hx1.
  { apply Hframe1. intros Hnext ->. by apply Hxl, next_address_elem. }
  destruct (tidy_allocate _ _ _ _ _ Hcalloc Hfresh) as [Hfresh1 _].
  unfold bind at 1. rewrite Hcalloc.
  unfold bind at 1.
  destruct (setitem0 p (next_address (libc w)) w1) as [[[] | e |] w2] eqn:Hset.
  - destruct (tidy_setitem0 _ _ _ _ _ Hset Hfresh1) as [Hfresh2 _].
    unfold setitem0 in Hset.
    destruct (decide (p = NULL)); [done |].
    destruct (heap w1 !! p) as [[ | | old | |] |] eqn:Hold; try done.
    injection Hset as <-.
    unfold bind at 1.
    destruct (for_each (range n) (my_conv_step password messages p)
                (put_block p (RespPtr (next_address (libc w))) w1))
      as [r3 w3] eqn:Hloop.
    assert (heap (put_block p (RespPtr (next_address (libc w))) w1) !! p
            = Some (RespPtr (next_address (libc w)))) as Hp2
      by (simpl; apply lookup_insert_eq).
    assert (heap w3 !! x = heap w !! x) as Hx3.
    { rewrite (my_conv_loop_frame _ _ _ _ _ _ _ _ Hp2 Hfresh2 Hloop x).
      - simpl. by rewrite lookup_insert_ne.
      - intros Hnext ->. by apply Hxl, next_address_elem.
      - simpl. rewrite Hlibc1. intros Hin. by apply Hxl, elem_of_tail. }
    by destruct r3.
  - simpl. unfold setitem0 in Hset. repeat (case_match; simplify_eq); done.
  - simpl. unfold setitem0 in Hset. repeat (case_match; simplify_eq); done.
Qed.

(** X17 at work on the three messages with a failing [calloc]: the text of
    the first message, at 111, is one of the addresses left alone. *)
Lemma callback_writes_only_its_own_witness :
  changed_only (λ x, x = 200 ∨ x ∈ libc (Demo.three_world [0; 310; 320]))
    (Demo.three_world [0; 310; 320])
    (snd (my_conv "hunter2" 3 100 200 0 (Demo.three_world [0; 310; 320]))).
Proof.
  apply (callback_writes_only_its_own "hunter2" 3 100 200 0
           (Demo.three_world [0; 310; 320])).
  split.
  - apply (bool_decide_unpack _). vm_compute. exact I.
  - repeat constructor; intros _; vm_compute; reflexivity.
Defined.

(** ** A password with a NUL byte *)

Lemma c_str_cut pre post : x00 ∉ pre -> c_str (pre ++ x00 :: post) = pre.
Proof.
  induction pre as [| b pre IH]; intros Hnot; simpl; [done |].
  apply not_elem_of_cons in Hnot as [Hb Hpre].
  destruct (Byte.eqb b x00) eqn:Heq.
  - apply Byte.byte_dec_bl in Heq. congruence.
  - by rewrite IH.
Qed.

(** X18. [strdup] copies a C string, so a password is cut at its first NUL
    byte: when the encoded password is [pre], a NUL, then [post], the text
    stored for a password prompt holds [pre] only. *)
Theorem password_cut_at_nul password pre post n messages p app ms w i m :
  callback_entry n messages p ms w ->
  next_address (libc w) ≠ NULL ->
  encode_utf8 password = pre ++ x00 :: post ->
  x00 ∉ pre ->
  ms !! i = Some m ->
  msg_style m = PAM_PROMPT_ECHO_OFF ->
  ∃ w' rs r,
    my_conv password n messages p app w = (Ok 0, w') ∧
    read_responses (heap w') p = Some rs ∧
    rs !! i = Some r ∧
    (resp r ≠ NULL -> heap w' !! resp r = Some (CStr pre)).
Proof.
  intros Hentry Hnext Hbytes Hpre Hm Hstyle%is_prompt_true.
  pose proof (next_address_cons _ Hnext) as Hl.
  destruct (my_conv_allocated password n messages p app ms w _ _ Hentry Hl Hnext)
    as (w' & Hrun & Hptr & Harr & _ & Hcopies).
  pose proof (answers_lookup_prompt _ (tail (libc w)) _ _ Hm Hstyle) as Hslot.
  eexists w', _, _. split; [done |].
  split; [by eapply read_responses_allocated |].
  split; [exact Hslot |].
  intros Hv. rewrite Forall_forall in Hcopies.
  rewrite (Hcopies _ (list_elem_of_lookup_2 _ _ _ Hslot) Hv).
  by rewrite Hbytes, c_str_cut.
Qed.

(** X18 at work: the password is [hunter2], a NUL, then [x]. *)
Lemma password_cut_at_nul_witness :
  ∃ w' rs r,
    my_conv (String.append "hunter2" (String Ascii.zero "x")) 3 100 200 0
      (Demo.three_world [300; 310; 320]) = (Ok 0, w') ∧
    read_responses (heap w') 200 = Some rs ∧
    rs !! 0%nat = Some r ∧
    (resp r ≠ NULL -> heap w' !! resp r = Some (CStr (encode_utf8 "hunter2"))).
Proof.
  apply (password_cut_at_nul (String.append "hunter2" (String Ascii.zero "x"))
           (encode_utf8 "hunter2") (encode_utf8 "x") 3 100 200 0
           Demo.three_messages (Demo.three_world [300; 310; 320]) 0%nat
           {| msg_style := PAM_PROMPT_ECHO_OFF; msg := 111 |}).
  - exact three_entry_300_310_320.
  - vm_compute. discriminate.
  - vm_compute. reflexivity.
  - apply (bool_decide_unpack _). vm_compute. exact I.
  - reflexivity.
  - reflexivity.
Defined.

(** * The session and the callback together *)

(** The one-prompt call of [Demo] is a well-formed callback invocation when
    the allocator answers with two unused addresses. *)
Lemma prompt_entry a b :
  a ≠ NULL -> b ≠ NULL -> a ≠ b ->
  Demo.prompt_heap !! a = None -> Demo.prompt_heap !! b = None ->
  callback_entry 1 100 200
    [ {| msg_style := PAM_PROMPT_ECHO_OFF; msg := 120 |} ]
    {| heap := Demo.prompt_heap; libc := [a; b]; trace := [] |}.
Proof.
  intros Ha Hb Hab Hfa Hfb. split.
  - reflexivity.
  - unfold INT_MAX. lia.
  - vm_compute. reflexivity.
  - split; [done |]. eexists. vm_compute. reflexivity.
  - split; simpl.
    + rewrite !filter_cons_True by done. rewrite filter_nil.
      apply NoDup_cons. split; [by intros ?%list_elem_of_singleton |].
      apply NoDup_singleton.
    + by repeat constructor.
Qed.

(** X19. [authenticate] and its callback against a libpam that asks for the
    password once, with echo off, and compares the answer with the
    account's password: the result is [True] exactly when the C string of
    the encoded password is the account's password. *)
Theorem login_checks_password username password service secret a b :
  a ≠ NULL -> b ≠ NULL -> a ≠ b ->
  Demo.prompt_heap !! a = None -> Demo.prompt_heap !! b = None ->
  fst (authenticate Demo.pam_start Demo.pam_authenticate Demo.pam_end
         username password service (account secret [a; b], [])) =
  bool_decide (c_str (encode_utf8 password) = secret).
Proof.
  intros Ha Hb Hab Hfa Hfb.
  pose proof (prompt_entry a b Ha Hb Hab Hfa Hfb) as Hentry.
  destruct (my_conv_allocated password 1 100 200 0 _ _ a [b] Hentry eq_refl Ha)
    as (w' & Hrun & Hptr & Harr & _ & Hcopies).
  assert (answers [ {| msg_style := PAM_PROMPT_ECHO_OFF; msg := 120 |} ] [b]
          = [answer b]) as Hans by reflexivity.
  rewrite Hans in Harr, Hcopies.
  rewrite Forall_singleton in Hcopies. specialize (Hcopies Hb). simpl in Hcopies.
  set (s1 := {| Demo.registered := Some (descriptor password);
                Demo.memory := {| heap := Demo.prompt_heap; libc := [a; b]; trace := [] |};
                Demo.secret := secret;
                Demo.start_status := 0; Demo.end_status := 0 |}).
  set (s2 := {| Demo.registered := Some (descriptor password);
                Demo.memory := w';
                Demo.secret := secret;
                Demo.start_status := 0; Demo.end_status := 0 |}).
  set (auth := if decide (c_str (encode_utf8 password) = secret)
               then Demo.PAM_SUCCESS else Demo.PAM_AUTH_ERR).
  assert (Demo.pam_authenticate {| handle := 4096 |} 0 s1 = (auth, s2)) as Hauth.
  { unfold Demo.pam_authenticate, s1, descriptor.
    cbn [Demo.registered Demo.memory Demo.secret Demo.start_status Demo.end_status
         conv appdata_ptr].
    rewrite Hrun.
    rewrite (read_responses_allocated _ _ _ _ Ha Hptr Harr).
    cbn [resp answer]. rewrite Hcopies.
    unfold auth, s2, descriptor. by destruct (decide _). }
  rewrite (authenticate_started Demo.pam_start Demo.pam_authenticate Demo.pam_end
             username password service (account secret [a; b]) []
             {| handle := 4096 |} s1 auth s2 0 s2 eq_refl Hauth eq_refl).
  simpl. unfold auth.
  destruct (decide (c_str (encode_utf8 password) = secret)) as [Heq | Hne].
  - by rewrite (bool_decide_eq_true_2 _ Heq).
  - by rewrite (bool_decide_eq_false_2 _ Hne).
Qed.

(** X19 at work: the right password, and a wrong one. *)
Lemma login_checks_password_witness :
  fst (authenticate Demo.pam_start Demo.pam_authenticate Demo.pam_end
         "alice" "hunter2" "login" (account (encode_utf8 "hunter2") [300; 310], [])) =
  bool_decide (c_str (encode_utf8 "hunter2") = encode_utf8 "hunter2").
Proof.
  apply (login_checks_password "alice" "hunter2" "login" (encode_utf8 "hunter2")
           300 310).
  - discriminate.
  - discriminate.
  - discriminate.
  - vm_compute. reflexivity.
  - vm_compute. reflexivity.
Defined.

Example login_rejects_wrong_password :
  fst (authenticate Demo.pam_start Demo.pam_authenticate Demo.pam_end
         "alice" "hunter3" "login" (account (encode_utf8 "hunter2") [300; 310], []))
  = false.
Proof. vm_compute. reflexivity. Qed.
